(** * network-last-request: the interception and formatting logic of
      [docs/js/index.mjs], embedded in Rocq.

    The component wraps [window.fetch] and three methods of
    [XMLHttpRequest.prototype], keeps the most recent request in
    [this.lastRequest] and renders it as an HTTP/1.1 message.

    Conventions of the embedding.
    - A JavaScript string is the list of its UTF-16 code units.
    - The universe of JavaScript values ([value]) covers [undefined], [null],
      booleans, strings, plain objects, arrays, [Headers], [Request] and
      [FormData] instances, and opaque host objects.  Numbers, symbols and
      functions are not part of it.
    - A statement that can raise returns a [result]; the wrappers return what
      they did last: they threw, or they ended in the call of the original
      platform function ([Forwarded]).
    - Request records are JavaScript objects shared by reference: they live in
      a store ([heap]) and the display and the XHR object hold addresses. *)

From Stdlib Require Import List NArith ZArith Bool Lia.
From Stdlib Require Import String Ascii DecimalString.
Import ListNotations.

Set Implicit Arguments.
Set Warnings "-register-all".

(** ** Strings *)

Module JsString.

Definition jstr := list N.

(** The string literal of the source with ASCII text [s]. *)
Definition js (s : string) : jstr := map N_of_ascii (list_ascii_of_string s).

Definition c_nl : N := 10%N.
Definition c_lt : N := 60%N.
Definition c_gt : N := 62%N.

Fixpoint jstr_eqb (a b : jstr) : bool :=
  match a, b with
  | [], [] => true
  | x :: a', y :: b' => N.eqb x y && jstr_eqb a' b'
  | _, _ => false
  end.

(** [WhiteSpace] and [LineTerminator] code points of ECMAScript, the ones
    [String.prototype.trim] removes. *)
Definition is_white (c : N) : bool :=
  ((9 <=? c) && (c <=? 13) || (c =? 32) || (c =? 160) || (c =? 5760)
   || (8192 <=? c) && (c <=? 8202) || (c =? 8232) || (c =? 8233)
   || (c =? 8239) || (c =? 8287) || (c =? 12288) || (c =? 65279))%N.

Fixpoint trimStart (s : jstr) : jstr :=
  match s with
  | c :: s' => if is_white c then trimStart s' else s
  | [] => []
  end.

Definition trimEnd (s : jstr) : jstr := rev (trimStart (rev s)).

Definition trim (s : jstr) : jstr := trimEnd (trimStart s).

Fixpoint startsWith (s p : jstr) : bool :=
  match p, s with
  | [], _ => true
  | x :: p', c :: s' => N.eqb c x && startsWith s' p'
  | _ :: _, [] => false
  end.

Definition endsWith (s p : jstr) : bool := startsWith (rev s) (rev p).

Fixpoint includes (s p : jstr) : bool :=
  startsWith s p ||
  match s with
  | [] => false
  | _ :: s' => includes s' p
  end.

Fixpoint repeat_str (s : jstr) (n : nat) : jstr :=
  match n with
  | O => []
  | S n' => s ++ repeat_str s n'
  end.

(** [s.split('\n')] *)
Fixpoint split_nl (s : jstr) : list jstr :=
  match s with
  | [] => [[]]
  | c :: s' =>
      if N.eqb c c_nl then [] :: split_nl s'
      else match split_nl s' with
           | l :: ls => (c :: l) :: ls
           | [] => [[c]]
           end
  end.

(** [parts.join(sep)] *)
Fixpoint join (sep : jstr) (parts : list jstr) : jstr :=
  match parts with
  | [] => []
  | [p] => p
  | p :: ps => p ++ sep ++ join sep ps
  end.

(** [s.replace(/></g, '>\n<')]: every match, left to right, the scan
    resuming after the match. *)
Fixpoint replace_gt_lt (s : jstr) : jstr :=
  match s with
  | [] => []
  | c :: s' =>
      match s' with
      | d :: s'' =>
          if N.eqb c c_gt && N.eqb d c_lt
          then c_gt :: c_nl :: c_lt :: replace_gt_lt s''
          else c :: replace_gt_lt s'
      | [] => [c]
      end
  end.

(** An array index in the sense of ECMAScript: the canonical decimal
    numeral of an integer below 2^32 - 1. *)
Definition is_digit (c : N) : bool := ((48 <=? c) && (c <=? 57))%N.

Fixpoint digits_value (acc : N) (s : jstr) : option N :=
  match s with
  | [] => Some acc
  | c :: s' =>
      if is_digit c then digits_value (10 * acc + (c - 48))%N s' else None
  end.

Definition array_index (s : jstr) : option N :=
  match s with
  | [] => None
  | c :: s' =>
      if N.eqb c 48 && negb (match s' with [] => true | _ => false end)
      then None
      else match digits_value 0%N s with
           | Some n => if (n <? 4294967295)%N then Some n else None
           | None => None
           end
  end.

(** The decimal numeral of [i], the property key of the array element [i]. *)
Definition index_key (i : nat) : jstr :=
  js (NilZero.string_of_uint (Nat.to_uint i)).

End JsString.

Import JsString.

(** ** Values, exceptions and objects *)

Inductive error : Type :=
| TypeError.

Inductive result (A : Type) : Type :=
| Ok (a : A)
| Throw (e : error).

Arguments Ok {A} a.
Arguments Throw {A} e.

Definition bind {A B : Type} (r : result A) (k : A -> result B) : result B :=
  match r with
  | Ok a => k a
  | Throw e => Throw e
  end.

Notation "x <- r ;; k" := (bind r (fun x => k))
  (at level 61, r at next level, right associativity).

(** The values the wrappers can be handed.  [Object] is an ordinary object
    whose prototype is [Object.prototype], given by its own enumerable
    string-keyed properties in property order, all of them data properties.
    [Headers] is given by the (name, value) pairs its [forEach] visits, in
    that order; [FormData] by the pairs its [entries()] yields, each value as
    a template literal renders it.  [Request] carries what its getters
    return.  [Host] is any other platform object (URL, Blob,
    URLSearchParams, ...): it has no own enumerable property, no member
    named method, headers or body, and its [toString()] returns [repr]. *)
Inductive value : Type :=
| Undefined
| Null
| Boolean (b : bool)
| Str (s : jstr)
| Object (props : list (jstr * value))
| Array (elems : list value)
| Headers (entries : list (jstr * jstr))
| Request (url method : jstr) (headers : list (jstr * jstr)) (has_body : bool)
| FormData (entries : list (jstr * jstr))
| Host (repr : jstr).

Definition props := list (jstr * value).

(** [!v] is [negb (truthy v)]. *)
Definition truthy (v : value) : bool :=
  match v with
  | Undefined | Null => false
  | Boolean b => b
  | Str s => negb (jstr_eqb s [])
  | _ => true
  end.

(** [typeof v === 'object'] *)
Definition typeof_object (v : value) : bool :=
  match v with
  | Undefined | Boolean _ | Str _ => false
  | _ => true
  end.

Module Props.

Fixpoint lookup (k : jstr) (o : props) : option value :=
  match o with
  | [] => None
  | (k', v) :: o' => if jstr_eqb k k' then Some v else lookup k o'
  end.

Definition keys (o : props) : list jstr := map fst o.

(** Overwrite the value of the existing own property [k], in place. *)
Fixpoint overwrite (k : jstr) (v : value) (o : props) : props :=
  match o with
  | [] => []
  | (k', v') :: o' =>
      if jstr_eqb k k' then (k', v) :: o' else (k', v') :: overwrite k v o'
  end.

(** A new property whose key is the array index [n] goes before the first
    property that is not an array index or has a larger one: own property
    keys are listed array indices first, ascending, then the other strings
    in creation order. *)
Fixpoint insert_index (n : N) (k : jstr) (v : value) (o : props) : props :=
  match o with
  | [] => [(k, v)]
  | (k', v') :: o' =>
      match array_index k' with
      | Some m =>
          if (m <? n)%N then (k', v') :: insert_index n k v o'
          else (k, v) :: o
      | None => (k, v) :: o
      end
  end.

(** [CreateDataProperty(o, k, v)] on an ordinary extensible object. *)
Definition define (o : props) (k : jstr) (v : value) : props :=
  match lookup k o with
  | Some _ => overwrite k v o
  | None =>
      match array_index k with
      | Some n => insert_index n k v o
      | None => o ++ [(k, v)]
      end
  end.

(** [o[k] = v] for a string [v], on an object whose prototype is
    [Object.prototype]: the key [__proto__] reaches the inherited setter,
    which ignores a value that is neither an object nor null and creates no
    own property; every other key becomes or updates an own data
    property. *)
Definition set (o : props) (k : jstr) (v : jstr) : props :=
  if jstr_eqb k (js "__proto__") then o else define o k (Str v).

Fixpoint indexed (i : nat) (l : list value) : props :=
  match l with
  | [] => []
  | x :: l' => (index_key i, x) :: indexed (S i) l'
  end.

(** The own enumerable string-keyed properties of [v], in key order. *)
Definition own_enumerable (v : value) : props :=
  match v with
  | Object o => o
  | Array elems => indexed 0 elems
  | Str s => indexed 0 (map (fun c => Str [c]) s)
  | _ => []
  end.

(** The object literal with the single spread element [v]. *)
Definition spread (v : value) : props :=
  fold_left (fun o kv => define o (fst kv) (snd kv)) (own_enumerable v) [].

End Props.

(** The members the component reads from its arguments. *)
Inductive member_name : Type :=
| m_method
| m_headers
| m_body.

Definition member_key (m : member_name) : jstr :=
  match m with
  | m_method => js "method"
  | m_headers => js "headers"
  | m_body => js "body"
  end.

(** The property [m] of the non-nullish value [v], [None] when [v] has no
    such property (own or inherited). *)
Definition member (v : value) (m : member_name) : option value :=
  match v with
  | Object o => Props.lookup (member_key m) o
  | Request _ meth hs has_body =>
      Some match m with
           | m_method => Str meth
           | m_headers => Headers hs
           | m_body =>
               if has_body then Host (js "[object ReadableStream]") else Null
           end
  | _ => None
  end.

(** [v?.m] *)
Definition optional_member (v : value) (m : member_name) : value :=
  match v with
  | Undefined | Null => Undefined
  | _ => match member v m with
         | Some x => x
         | None => Undefined
         end
  end.

(** The abstract operation [ToString], as a template literal applies it.  No
    value of the universe is callable, so an own [toString] property of an
    ordinary object hides [Object.prototype.toString] behind something that
    cannot be called, and [OrdinaryToPrimitive] ends in a TypeError. *)
Fixpoint ToString (v : value) : result jstr :=
  match v with
  | Undefined => Ok (js "undefined")
  | Null => Ok (js "null")
  | Boolean b => Ok (if b then js "true" else js "false")
  | Str s => Ok s
  | Object o =>
      match Props.lookup (js "toString") o with
      | Some _ => Throw TypeError
      | None => Ok (js "[object Object]")
      end
  | Array elems =>
      parts <- (fix each (l : list value) : result (list jstr) :=
                  match l with
                  | [] => Ok []
                  | x :: l' =>
                      s <- match x with
                           | Undefined | Null => Ok []
                           | _ => ToString x
                           end ;;
                      ss <- each l' ;;
                      Ok (s :: ss)
                  end) elems ;;
      Ok (join (js ",") parts)
  | Headers _ => Ok (js "[object Headers]")
  | Request _ _ _ _ => Ok (js "[object Request]")
  | FormData _ => Ok (js "[object FormData]")
  | Host repr => Ok repr
  end.

(** The method call [v.toString()]. *)
Definition call_toString (v : value) : result jstr :=
  match v with
  | Undefined | Null => Throw TypeError
  | _ => ToString v
  end.

(** ** The display: [formatHtml], [formatBody], [render] *)

Definition Date := N.

(** The object literal built at interception ([requestDetails]).  The fetch
    path stores a string in [url] and a truthy value in [method]; the XHR path
    stores the two arguments of [open] as they are, and has no [body]
    ([Undefined]) until [send]. *)
Record RequestDetails : Type := {
  method : value;
  url : value;
  headers : props;
  body : value;
  timestamp : Date
}.

(** One iteration of the loop of [formatHtml] on the state
    [(formatted, indent)]. *)
Definition formatHtml_line (st : jstr * Z) (raw : jstr) : jstr * Z :=
  let line := trim raw in
  if jstr_eqb line [] then st
  else
    let indent1 :=
      if startsWith line (js "</") then Z.max 0 (snd st - 1) else snd st in
    let formatted :=
      fst st ++ repeat_str (js "  ") (Z.to_nat indent1) ++ line ++ [c_nl] in
    let indent2 :=
      if startsWith line (js "<") && negb (startsWith line (js "</"))
         && negb (endsWith line (js "/>"))
      then if negb (includes line (js "</")) then (indent1 + 1)%Z else indent1
      else indent1 in
    (formatted, indent2).

Definition formatHtml (html : jstr) : jstr :=
  let lines := split_nl (replace_gt_lt html) in
  trim (fst (fold_left formatHtml_line lines ([], 0%Z))).

(** [formatBody] returns [null] or a string. *)
Definition formatBody (b : value) : result value :=
  if negb (truthy b) then Ok Null
  else
    match b with
    | Str s =>
        if startsWith (trim s) (js "<") && endsWith (trim s) (js ">")
        then Ok (Str (formatHtml s))
        else Ok (Str s)
    | FormData entries =>
        Ok (Str (join [c_nl]
                   (map (fun kv => fst kv ++ js ": " ++ snd kv) entries)))
    | _ => s <- call_toString b ;; Ok (Str s)
    end.

(** What [this.container] shows: the placeholder
    [<div class="empty-state">No requests captured yet</div>], or a
    [pre > code.language-http] whose text content is [text], passed to
    [hljs.highlightElement] when [highlighted], followed by the
    [div.timestamp] holding the local time of [time]. *)
Inductive Container : Type :=
| EmptyState
| HttpMessage (text : jstr) (highlighted : bool) (time : Date).

Record Display : Type := {
  lastRequest : option nat;
  container : Container
}.

(** The page: the store of request records, the component instance that
    installed the wrappers, whether [window.hljs] is there, and whether
    [document.querySelector('network-last-request')] finds the instance. *)
Record World : Type := {
  heap : list RequestDetails;
  display : Display;
  hljs : bool;
  in_document : bool
}.

Definition current_request (w : World) : option RequestDetails :=
  match lastRequest (display w) with
  | Some a => nth_error (heap w) a
  | None => None
  end.

Definition set_container (c : Container) (w : World) : World :=
  {| heap := heap w;
     display := {| lastRequest := lastRequest (display w); container := c |};
     hljs := hljs w;
     in_document := in_document w |}.

Definition set_lastRequest (a : nat) (w : World) : World :=
  {| heap := heap w;
     display := {| lastRequest := Some a; container := container (display w) |};
     hljs := hljs w;
     in_document := in_document w |}.

Definition set_heap (h : list RequestDetails) (w : World) : World :=
  {| heap := h;
     display := display w;
     hljs := hljs w;
     in_document := in_document w |}.

(** The loop over [Object.entries(headers)]. *)
Fixpoint header_lines (msg : jstr) (hs : props) : result jstr :=
  match hs with
  | [] => Ok msg
  | (k, v) :: hs' =>
      s <- ToString v ;;
      header_lines (msg ++ [c_nl] ++ k ++ js ": " ++ s) hs'
  end.

(** The text [render] puts in the [code] element. *)
Definition httpMessage (r : RequestDetails) : result jstr :=
  m <- ToString (method r) ;;
  u <- ToString (url r) ;;
  msg <- header_lines (m ++ js " " ++ u ++ js " HTTP/1.1") (headers r) ;;
  formattedBody <- formatBody (body r) ;;
  Ok (if truthy formattedBody
      then match formattedBody with
           | Str fb => msg ++ [c_nl; c_nl] ++ fb
           | _ => msg
           end
      else msg).

(** [render()].  Every statement that can raise comes before the first write
    to the container, so a raising [render] leaves the world as it was. *)
Definition render (w : World) : result World :=
  match current_request w with
  | None => Ok (set_container EmptyState w)
  | Some r =>
      text <- httpMessage r ;;
      Ok (set_container (HttpMessage text (hljs w) (timestamp r)) w)
  end.

(** ** The interceptor: [interceptRequests] *)

(** The calls of the original platform functions the wrappers end in.  The
    receiver of an XHR call is the object the wrapper was called on. *)
Inductive native_call : Type :=
| originalFetch (args : list value)
| originalOpen (args : list value)
| originalSetRequestHeader (header value : jstr)
| originalSend (args : list value).

(** How a wrapper ends: an exception of its own code leaves it (the wrapped
    [fetch] is [async], so there it is the rejection of the returned promise),
    or it returns what the original function returns for [c]. *)
Inductive outcome : Type :=
| Thrown (e : error)
| Forwarded (c : native_call).

(** [args[i]], [undefined] past the end. *)
Definition arg (i : nat) (args : list value) : value := nth i args Undefined.

(** Lines 67-80: the [headers] object of the record. *)
Definition capture_headers (config : value) : props :=
  let h := optional_member config m_headers in
  if truthy h then
    match h with
    | Headers entries =>
        fold_left (fun o kv => Props.set o (fst kv) (snd kv)) entries []
    | _ => if typeof_object h then Props.spread h else []
    end
  else [].

(** Lines 65-95: the record of a call of the wrapped [fetch] at time [now]. *)
Definition fetch_details (args : list value) (now : Date)
  : result RequestDetails :=
  let resource := arg 0 args in
  let config := arg 1 args in
  let hs := capture_headers config in
  fullUrl <- call_toString resource ;;
  let fullUrl := match resource with
                 | Request u _ _ _ => u
                 | _ => fullUrl
                 end in
  let m := optional_member config m_method in
  Ok {| method := if truthy m then m else Str (js "GET");
        url := Str fullUrl;
        headers := hs;
        body := optional_member config m_body;
        timestamp := now |}.

(** A new object in the store; its address is the old length. *)
Definition alloc (r : RequestDetails) (w : World) : nat * World :=
  (List.length (heap w), set_heap (heap w ++ [r]) w).

Fixpoint update (a : nat) (f : RequestDetails -> RequestDetails)
  (h : list RequestDetails) : list RequestDetails :=
  match h, a with
  | [], _ => []
  | r :: h', O => f r :: h'
  | r :: h', S a' => r :: update a' f h'
  end.

(** Lines 64-103: the function installed as [window.fetch]. *)
Definition wrapped_fetch (args : list value) (now : Date) (w : World)
  : outcome * World :=
  match fetch_details args now with
  | Throw e => (Thrown e, w)
  | Ok r =>
      let (a, w1) := alloc r w in
      let w2 := set_lastRequest a w1 in
      match render w2 with
      | Throw e => (Thrown e, w2)
      | Ok w3 => (Forwarded (originalFetch args), w3)
      end
  end.

(** An XMLHttpRequest object, as far as the wrappers use it: its
    [_requestDetails] property, the address of a record, if it has one. *)
Record XHR : Type := {
  _requestDetails : option nat
}.

Definition new_XHR : XHR := {| _requestDetails := None |}.

(** Lines 110-118 *)
Definition wrapped_open (args : list value) (now : Date) (x : XHR) (w : World)
  : outcome * XHR * World :=
  let (a, w1) := alloc {| method := arg 0 args;
                          url := arg 1 args;
                          headers := [];
                          body := Undefined;
                          timestamp := now |} w in
  (Forwarded (originalOpen args), {| _requestDetails := Some a |}, w1).

(** Lines 120-125, for a call whose two arguments are strings, as the
    platform method declares them.  Calls with other arguments are not
    described: a name whose conversion to a property key raises, a value
    that is not a string, [__proto__] with an object or [null]. *)
Definition wrapped_setRequestHeader (header value : jstr) (x : XHR) (w : World)
  : outcome * XHR * World :=
  let w1 :=
    match _requestDetails x with
    | Some a =>
        set_heap
          (update a (fun r => {| method := method r;
                                 url := url r;
                                 headers := Props.set (headers r) header value;
                                 body := body r;
                                 timestamp := timestamp r |}) (heap w)) w
    | None => w
    end in
  (Forwarded (originalSetRequestHeader header value), x, w1).

(** Lines 127-139 *)
Definition wrapped_send (args : list value) (x : XHR) (w : World)
  : outcome * XHR * World :=
  match _requestDetails x with
  | Some a =>
      let w1 :=
        set_heap
          (update a (fun r => {| method := method r;
                                 url := url r;
                                 headers := headers r;
                                 body := arg 0 args;
                                 timestamp := timestamp r |}) (heap w)) w in
      if in_document w1 then
        let w2 := set_lastRequest a w1 in
        match render w2 with
        | Throw e => (Thrown e, x, w2)
        | Ok w3 => (Forwarded (originalSend args), x, w3)
        end
      else (Forwarded (originalSend args), x, w1)
  | None => (Forwarded (originalSend args), x, w)
  end.

(** A call on one XHR object, and a sequence of calls the page makes on it,
    with the way each one ended. *)
Inductive xhr_call : Type :=
| open (args : list value) (now : Date)
| setRequestHeader (header value : jstr)
| send (args : list value).

Definition xhr_step (c : xhr_call) (x : XHR) (w : World)
  : outcome * XHR * World :=
  match c with
  | open args now => wrapped_open args now x w
  | setRequestHeader h v => wrapped_setRequestHeader h v x w
  | send args => wrapped_send args x w
  end.

Fixpoint xhr_run (cs : list xhr_call) (x : XHR) (w : World)
  : list outcome * XHR * World :=
  match cs with
  | [] => ([], x, w)
  | c :: cs' =>
      let '(o, x1, w1) := xhr_step c x w in
      let '(os, x2, w2) := xhr_run cs' x1 w1 in
      (o :: os, x2, w2)
  end.

(** The constructor: [this.lastRequest = null], then [render()], on a page
    where [window.hljs] is there or not and the element is in the document or
    not. *)
Definition initial_world (highlighter in_doc : bool) : World :=
  {| heap := [];
     display := {| lastRequest := None; container := EmptyState |};
     hljs := highlighter;
     in_document := in_doc |}.

(** ** Notions the statements use *)

(** The world after a call of [render()], whether it returned or raised. *)
Definition after_render (w : World) : World :=
  match render w with
  | Ok w' => w'
  | Throw _ => w
  end.

(** Addresses point into the store. *)
Definition allocated (o : option nat) (w : World) : Prop :=
  match o with
  | Some a => a < List.length (heap w)
  | None => True
  end.

Definition wf_world (w : World) : Prop := allocated (lastRequest (display w)) w.

(** [ToString v] returns. *)
Definition converts (v : value) : Prop := exists s, ToString v = Ok s.

(** The value the last pair of [l] with key [k] gives it. *)
Fixpoint last_binding {A : Type} (k : jstr) (l : list (jstr * A)) : option A :=
  match l with
  | [] => None
  | (k', v) :: l' =>
      match last_binding k l' with
      | Some v' => Some v'
      | None => if jstr_eqb k k' then Some v else None
      end
  end.

(** The original call an XHR wrapper forwards to. *)
Definition forward_of (c : xhr_call) : native_call :=
  match c with
  | open args _ => originalOpen args
  | setRequestHeader h v => originalSetRequestHeader h v
  | send args => originalSend args
  end.

Definition is_open (c : xhr_call) : bool :=
  match c with
  | open _ _ => true
  | _ => false
  end.

(** The arguments of the scenarios. *)
Definition post_api_args : list value :=
  [Str (js "/api");
   Object [(js "method", Str (js "POST"));
           (js "headers", Object [(js "X-Test", Str (js "1"))]);
           (js "body", Str (js "hello"))]].

Definition get_x_calls (now : Date) : list xhr_call :=
  [open [Str (js "GET"); Str (js "/x")] now;
   setRequestHeader (js "A") (js "1");
   setRequestHeader (js "B") (js "2");
   send [Null]].

(** [s] has a line feed. *)
Definition has_nl (s : jstr) : bool := existsb (N.eqb c_nl) s.

(** [s] is made of characters [trim] removes. *)
Definition all_white (s : jstr) : bool := forallb is_white s.

(** The lines the loop of [formatHtml] emits for [html]: the lines of the
    input once broken between [>] and [<], trimmed, the blank ones left
    out. *)
Definition nonblank_lines (html : jstr) : list jstr :=
  filter (fun l => negb (jstr_eqb l []))
    (map trim (split_nl (replace_gt_lt html))).

(** The line [formatBody] and [render] write for a name and a string
    value. *)
Definition colon_line (kv : jstr * jstr) : jstr :=
  fst kv ++ js ": " ++ snd kv.

(** A line at indent level [fst it]. *)
Definition indented (it : nat * jstr) : jstr :=
  repeat_str (js "  ") (fst it) ++ snd it.

Definition is_send (c : xhr_call) : bool :=
  match c with
  | send _ => true
  | _ => false
  end.

Definition is_message (c : Container) : bool :=
  match c with
  | HttpMessage _ _ _ => true
  | EmptyState => false
  end.

(** ** Strings and the store: basic facts *)

Lemma jstr_eqb_refl (a : jstr) : jstr_eqb a a = true.
Proof.
  induction a as [|x a IH]; simpl; [reflexivity|].
  now rewrite N.eqb_refl, IH.
Qed.

Lemma jstr_eqb_eq (a b : jstr) : jstr_eqb a b = true <-> a = b.
Proof.
  split; [|intros ->; apply jstr_eqb_refl].
  revert b; induction a as [|x a IH]; intros [|y b]; simpl; try discriminate;
    [reflexivity|].
  intros H; apply andb_true_iff in H as [Hx Ha].
  apply N.eqb_eq in Hx; apply IH in Ha; now subst.
Qed.

Lemma jstr_eqb_neq (a b : jstr) : jstr_eqb a b = false <-> a <> b.
Proof.
  rewrite <- jstr_eqb_eq; destruct (jstr_eqb a b); split; congruence.
Qed.

Lemma jstr_eqb_sym (a b : jstr) : jstr_eqb a b = jstr_eqb b a.
Proof.
  destruct (jstr_eqb a b) eqn:E.
  - apply jstr_eqb_eq in E; subst; symmetry; apply jstr_eqb_refl.
  - symmetry; apply jstr_eqb_neq; apply jstr_eqb_neq in E; congruence.
Qed.

Lemma nth_error_alloc (h : list RequestDetails) (r : RequestDetails) :
  nth_error (h ++ [r]) (List.length h) = Some r.
Proof.
  induction h as [|r0 h IH]; simpl; [reflexivity|exact IH].
Qed.

Lemma update_alloc (h : list RequestDetails) (r : RequestDetails) f :
  update (List.length h) f (h ++ [r]) = h ++ [f r].
Proof.
  induction h as [|r0 h IH]; simpl; [reflexivity|now rewrite IH].
Qed.

(** ** [formatHtml] *)

Lemma formatHtml_line_blank (st : jstr * Z) (raw : jstr) :
  trim raw = [] -> formatHtml_line st raw = st.
Proof.
  intros H; unfold formatHtml_line; now rewrite H.
Qed.

Lemma formatHtml_line_closing (formatted : jstr) (indent : Z) (raw : jstr) :
  trim raw <> [] ->
  startsWith (trim raw) (js "</") = true ->
  formatHtml_line (formatted, indent) raw =
    (formatted ++ repeat_str (js "  ") (Z.to_nat (Z.max 0 (indent - 1)))
       ++ trim raw ++ [c_nl],
     Z.max 0 (indent - 1)).
Proof.
  intros Hne Hclose; unfold formatHtml_line.
  apply jstr_eqb_neq in Hne; rewrite Hne; cbn [fst snd].
  rewrite Hclose; cbn [negb andb].
  now rewrite andb_false_r.
Qed.

Lemma formatHtml_line_opening (formatted : jstr) (indent : Z) (raw : jstr) :
  startsWith (trim raw) (js "<") = true ->
  startsWith (trim raw) (js "</") = false ->
  endsWith (trim raw) (js "/>") = false ->
  includes (trim raw) (js "</") = false ->
  formatHtml_line (formatted, indent) raw =
    (formatted ++ repeat_str (js "  ") (Z.to_nat indent) ++ trim raw ++ [c_nl],
     (indent + 1)%Z).
Proof.
  intros Hopen Hclose Hself Hpair; unfold formatHtml_line.
  destruct (jstr_eqb (trim raw) []) eqn:E.
  - apply jstr_eqb_eq in E; rewrite E in Hopen; discriminate.
  - cbn [fst snd]; now rewrite Hopen, Hclose, Hself, Hpair.
Qed.

(** C6: [formatHtml("<div><span>x</span></div>")] is the three lines [<div>]
    at indent level 0, [<span>x</span>] at level 1 (two spaces) and [</div>]
    at level 0: the input breaks into three lines between [>] and [<], and
    the indent counter is 1 after the first, 1 after the second and 0 after
    the third. *)
Theorem formatHtml_div_span :
  let html := js "<div><span>x</span></div>" in
  let lines := split_nl (replace_gt_lt html) in
  lines = [js "<div>"; js "<span>x</span>"; js "</div>"]
  /\ map (fun n => snd (fold_left formatHtml_line (firstn n lines) ([], 0%Z)))
       [1; 2; 3]
     = [1%Z; 1%Z; 0%Z]
  /\ split_nl (formatHtml html)
     = [repeat_str (js "  ") 0 ++ js "<div>";
        repeat_str (js "  ") 1 ++ js "<span>x</span>";
        repeat_str (js "  ") 0 ++ js "</div>"]
  /\ formatHtml html
     = js "<div>" ++ [c_nl] ++ js "  <span>x</span>" ++ [c_nl] ++ js "</div>".
Proof.
  repeat split; vm_compute; reflexivity.
Qed.

(** ** Scenarios *)

Lemma current_request_alloc (r : RequestDetails) (w : World) :
  current_request (set_lastRequest (fst (alloc r w)) (snd (alloc r w)))
  = Some r.
Proof.
  unfold current_request; simpl; apply nth_error_alloc.
Qed.

(** C2: the wrapped fetch called with
    [("/api", {method:"POST", headers:{"X-Test":"1"}, body:"hello"})] stores a
    record with method POST, url /api, headers {X-Test: "1"} and body hello,
    renders the text ["POST /api HTTP/1.1\nX-Test: 1\n\nhello"], and forwards
    the call. *)
Theorem fetch_post_api_scenario (now : Date) (w : World) :
  let w' := snd (wrapped_fetch post_api_args now w) in
  fst (wrapped_fetch post_api_args now w)
    = Forwarded (originalFetch post_api_args)
  /\ current_request w'
     = Some {| method := Str (js "POST");
               url := Str (js "/api");
               headers := [(js "X-Test", Str (js "1"))];
               body := Str (js "hello");
               timestamp := now |}
  /\ container (display w')
     = HttpMessage
         (js "POST /api HTTP/1.1" ++ [c_nl] ++ js "X-Test: 1"
            ++ [c_nl] ++ [c_nl] ++ js "hello")
         (hljs w) now.
Proof.
  unfold wrapped_fetch.
  change (fetch_details post_api_args now)
    with (Ok {| method := Str (js "POST");
                url := Str (js "/api");
                headers := [(js "X-Test", Str (js "1"))];
                body := Str (js "hello");
                timestamp := now |}).
  cbv beta iota delta [alloc render].
  cbv zeta.
  set (r := {| method := Str (js "POST"); url := _ |}).
  pose proof (current_request_alloc r w) as Hcur.
  unfold alloc in Hcur; cbn [fst snd] in Hcur.
  rewrite Hcur.
  change (httpMessage r)
    with (Ok (js "POST /api HTTP/1.1" ++ [c_nl] ++ js "X-Test: 1"
                ++ [c_nl] ++ [c_nl] ++ js "hello")).
  cbn [bind fst snd].
  repeat split.
  unfold current_request, set_container; cbn [display lastRequest heap].
  exact Hcur.
Qed.

(** C7: [open("GET","/x")], [setRequestHeader("A","1")],
    [setRequestHeader("B","2")], [send(null)] on one XHR object, with the
    display in the document: every call is forwarded, the record delivered to
    the display is the one attached to the XHR object, its headers are A: 1
    then B: 2, its body is null, [formatBody] gives no body and the rendered
    text ends after the headers. *)
Theorem xhr_get_x_scenario (now : Date) (x : XHR) (w : World) :
  in_document w = true ->
  let run := xhr_run (get_x_calls now) x w in
  let x' := snd (fst run) in
  let w' := snd run in
  fst (fst run) = map (fun c => Forwarded (forward_of c)) (get_x_calls now)
  /\ _requestDetails x' = lastRequest (display w')
  /\ current_request w'
     = Some {| method := Str (js "GET");
               url := Str (js "/x");
               headers := [(js "A", Str (js "1")); (js "B", Str (js "2"))];
               body := Null;
               timestamp := now |}
  /\ formatBody Null = Ok Null
  /\ container (display w')
     = HttpMessage
         (js "GET /x HTTP/1.1" ++ [c_nl] ++ js "A: 1" ++ [c_nl] ++ js "B: 2")
         (hljs w) now.
Proof.
  intros Hdoc.
  destruct w as [h d hl doc]; cbn in Hdoc; subst doc.
  unfold get_x_calls, xhr_run, xhr_step, wrapped_open, alloc.
  cbv zeta; cbn [fst snd heap set_heap display hljs in_document].
  unfold wrapped_setRequestHeader.
  cbn [_requestDetails heap set_heap display hljs in_document].
  rewrite !update_alloc.
  cbn [method url headers body timestamp heap set_heap display hljs
         in_document].
  unfold wrapped_send.
  cbn [_requestDetails heap set_heap display hljs in_document].
  rewrite update_alloc.
  unfold render, current_request.
  cbn [set_lastRequest set_heap heap display lastRequest hljs].
  rewrite nth_error_alloc.
  match goal with
  | |- context [httpMessage ?r] =>
      replace (httpMessage r)
        with (Ok (js "GET /x HTTP/1.1" ++ [c_nl] ++ js "A: 1" ++ [c_nl]
                    ++ js "B: 2"))
        by (vm_compute; reflexivity)
  end.
  cbn [bind fst snd set_container set_heap heap display lastRequest container
         hljs _requestDetails map forward_of timestamp].
  unfold current_request.
  cbn [set_container set_lastRequest set_heap heap display lastRequest].
  rewrite nth_error_alloc.
  repeat split.
Qed.

Lemma xhr_get_x_scenario_witness :
  in_document (initial_world false true) = true
  /\ container
       (display (snd (xhr_run (get_x_calls 7%N) new_XHR
                        (initial_world false true))))
     = HttpMessage
         (js "GET /x HTTP/1.1" ++ [c_nl] ++ js "A: 1" ++ [c_nl] ++ js "B: 2")
         false 7%N.
Proof.
  split; [reflexivity|].
  apply (xhr_get_x_scenario 7%N new_XHR (initial_world false true)).
  reflexivity.
Defined.

(** ** An XHR object that was never opened *)

(** C8: on an XHR object without a record, any sequence of calls of the
    wrapped [setRequestHeader] and [send] raises nothing of its own, forwards
    each call with its arguments to the original method, and leaves the
    object, the store and the display as they were. *)
Theorem xhr_never_opened (cs : list xhr_call) (x : XHR) (w : World) :
  _requestDetails x = None ->
  forallb (fun c => negb (is_open c)) cs = true ->
  xhr_run cs x w = (map (fun c => Forwarded (forward_of c)) cs, x, w).
Proof.
  intros Hx; induction cs as [|c cs IH]; intros Hcs; [reflexivity|].
  cbn [forallb] in Hcs; apply andb_true_iff in Hcs as [Hc Hcs].
  cbn [xhr_run map].
  assert (Hstep : xhr_step c x w = (Forwarded (forward_of c), x, w)).
  { destruct c as [args now|h v|args]; [discriminate| |]; cbn [xhr_step].
    - unfold wrapped_setRequestHeader; now rewrite Hx.
    - unfold wrapped_send; now rewrite Hx. }
  rewrite Hstep, (IH Hcs); reflexivity.
Qed.

Lemma xhr_never_opened_witness :
  xhr_run [setRequestHeader (js "A") (js "1"); send [Str (js "payload")]]
    new_XHR (initial_world true true)
  = ([Forwarded (originalSetRequestHeader (js "A") (js "1"));
      Forwarded (originalSend [Str (js "payload")])],
     new_XHR, initial_world true true).
Proof.
  apply (xhr_never_opened
           [setRequestHeader (js "A") (js "1"); send [Str (js "payload")]]
           new_XHR (initial_world true true)); reflexivity.
Defined.

(** ** [render] *)

Lemma render_sets_container (w w' : World) :
  render w = Ok w' -> exists c, w' = set_container c w.
Proof.
  unfold render; destruct (current_request w) as [r|].
  - destruct (httpMessage r) as [text|e]; cbn [bind]; [|discriminate].
    intros [= <-]; eauto.
  - intros [= <-]; eauto.
Qed.

Lemma current_request_set_container (c : Container) (w : World) :
  current_request (set_container c w) = current_request w.
Proof. reflexivity. Qed.

Lemma render_current_request (w w' : World) :
  render w = Ok w' -> current_request w' = current_request w.
Proof.
  intros H; apply render_sets_container in H as [c ->]; reflexivity.
Qed.

(** C9: calling [render()] twice in a row, from any stored state (a record or
    the empty slot), leaves after the second call exactly what the first call
    left, and the second call ends the way the first did. *)
Theorem render_twice_same_output (w : World) :
  after_render (after_render w) = after_render w
  /\ container (display (after_render (after_render w)))
     = container (display (after_render w))
  /\ render (after_render w)
     = match render w with
       | Ok _ => Ok (after_render w)
       | Throw e => Throw e
       end.
Proof.
  assert (H : render (after_render w)
              = match render w with
                | Ok _ => Ok (after_render w)
                | Throw e => Throw e
                end).
  { unfold after_render, render.
    destruct (current_request w) as [r|] eqn:Hcur.
    - destruct (httpMessage r) as [text|e] eqn:Hmsg; cbn [bind].
      + rewrite current_request_set_container, Hcur, Hmsg; reflexivity.
      + rewrite Hcur, Hmsg; reflexivity.
    - rewrite current_request_set_container, Hcur; reflexivity. }
  assert (H2 : after_render (after_render w) = after_render w).
  { unfold after_render at 1; rewrite H.
    unfold after_render; destruct (render w); reflexivity. }
  repeat split; [exact H2|now rewrite H2|exact H].
Qed.

(** ** [formatBody] *)

(** C5, as the code has it: a string body that is not empty and does not,
    once trimmed, both start with [<] and end with [>] is returned as it
    is. *)
Theorem formatBody_plain_string (s : jstr) :
  s <> [] ->
  startsWith (trim s) (js "<") && endsWith (trim s) (js ">") = false ->
  formatBody (Str s) = Ok (Str s).
Proof.
  intros Hne Hshape; unfold formatBody; cbn [truthy].
  apply jstr_eqb_neq in Hne; rewrite Hne; cbn [negb].
  now rewrite Hshape.
Qed.

Lemma formatBody_plain_string_witness :
  formatBody (Str (js "hello")) = Ok (Str (js "hello")).
Proof.
  apply (formatBody_plain_string (s := js "hello")).
  - discriminate.
  - reflexivity.
Defined.

(** C5 fails at the empty string: it does not start with [<], and
    [formatBody] answers [null], not the string. *)
Lemma formatBody_empty_string_is_null :
  startsWith (trim []) (js "<") && endsWith (trim []) (js ">") = false
  /\ formatBody (Str []) = Ok Null
  /\ formatBody (Str []) <> Ok (Str []).
Proof.
  repeat split; discriminate.
Qed.

(** ** The record of a fetch call *)

Lemma wrapped_fetch_stores (args : list value) (now : Date) (w : World)
  (r : RequestDetails) :
  fetch_details args now = Ok r ->
  current_request (snd (wrapped_fetch args now w)) = Some r.
Proof.
  intros H; unfold wrapped_fetch; rewrite H.
  pose proof (current_request_alloc r w) as Hcur.
  destruct (alloc r w) as [a w1]; cbn [fst snd] in Hcur.
  destruct (render (set_lastRequest a w1)) as [w3|e] eqn:Hr; cbn [snd].
  - apply render_current_request in Hr; congruence.
  - exact Hcur.
Qed.

Lemma fetch_details_method (args : list value) (now : Date)
  (r : RequestDetails) :
  fetch_details args now = Ok r ->
  method r = if truthy (optional_member (arg 1 args) m_method)
             then optional_member (arg 1 args) m_method
             else Str (js "GET").
Proof.
  unfold fetch_details.
  destruct (call_toString (arg 0 args)); cbn [bind]; [|discriminate].
  intros [= <-]; reflexivity.
Qed.

(** C3: when the options bag is absent, or has no method member, the record
    captured and stored by the wrapped fetch has the method GET. *)
Theorem fetch_method_defaults_to_GET (args : list value) (now : Date)
  (w : World) (r : RequestDetails) :
  arg 1 args = Undefined \/ member (arg 1 args) m_method = None ->
  fetch_details args now = Ok r ->
  method r = Str (js "GET")
  /\ current_request (snd (wrapped_fetch args now w)) = Some r.
Proof.
  intros Hno Hr; split; [|now apply wrapped_fetch_stores].
  rewrite (fetch_details_method _ _ Hr).
  assert (Hm : optional_member (arg 1 args) m_method = Undefined).
  { destruct Hno as [-> | Hno]; [reflexivity|].
    unfold optional_member; rewrite Hno; now destruct (arg 1 args). }
  now rewrite Hm.
Qed.

Lemma fetch_method_defaults_to_GET_witness :
  method {| method := Str (js "GET"); url := Str (js "/api");
            headers := []; body := Undefined; timestamp := 3%N |}
  = Str (js "GET")
  /\ current_request
       (snd (wrapped_fetch [Str (js "/api")] 3%N (initial_world false true)))
     = Some {| method := Str (js "GET"); url := Str (js "/api");
               headers := []; body := Undefined; timestamp := 3%N |}.
Proof.
  apply (fetch_method_defaults_to_GET [Str (js "/api")] 3%N
           (initial_world false true)).
  - left; reflexivity.
  - reflexivity.
Defined.

(** C10: when the options bag has a method member whose value is falsy (the
    empty string, [null], [undefined], [false]), the record captured and
    stored by the wrapped fetch has the method GET, not that value. *)
Theorem fetch_falsy_method_is_GET (args : list value) (now : Date)
  (w : World) (r : RequestDetails) (m : value) :
  member (arg 1 args) m_method = Some m ->
  truthy m = false ->
  fetch_details args now = Ok r ->
  method r = Str (js "GET")
  /\ method r <> m
  /\ current_request (snd (wrapped_fetch args now w)) = Some r.
Proof.
  intros Hm Hfalsy Hr.
  assert (Hget : method r = Str (js "GET")).
  { rewrite (fetch_details_method _ _ Hr).
    assert (Hom : optional_member (arg 1 args) m_method = m).
    { unfold optional_member; rewrite Hm.
      destruct (arg 1 args); try reflexivity; discriminate. }
    now rewrite Hom, Hfalsy. }
  repeat split; [exact Hget| |now apply wrapped_fetch_stores].
  rewrite Hget; intros <-; discriminate.
Qed.

Lemma fetch_falsy_method_is_GET_witness :
  method {| method := Str (js "GET"); url := Str (js "/api");
            headers := []; body := Undefined; timestamp := 3%N |}
  = Str (js "GET")
  /\ method {| method := Str (js "GET"); url := Str (js "/api");
               headers := []; body := Undefined; timestamp := 3%N |}
     <> Str []
  /\ current_request
       (snd (wrapped_fetch
               [Str (js "/api"); Object [(js "method", Str [])]] 3%N
               (initial_world false true)))
     = Some {| method := Str (js "GET"); url := Str (js "/api");
               headers := []; body := Undefined; timestamp := 3%N |}.
Proof.
  apply (fetch_falsy_method_is_GET
           [Str (js "/api"); Object [(js "method", Str [])]] 3%N
           (initial_world false true)
           (m := Str [])); reflexivity.
Defined.

(** ** Forwarding of the wrapped fetch *)

(** The wrapped fetch forwards nothing but the argument list it was given,
    and it raises exactly when building the record or rendering it does. *)
Lemma wrapped_fetch_outcome (args : list value) (now : Date) (w : World) :
  (exists r w',
      fetch_details args now = Ok r
      /\ wrapped_fetch args now w = (Forwarded (originalFetch args), w'))
  \/ (fetch_details args now = Throw TypeError
      /\ wrapped_fetch args now w = (Thrown TypeError, w))
  \/ (exists r w',
         fetch_details args now = Ok r
         /\ httpMessage r = Throw TypeError
         /\ wrapped_fetch args now w = (Thrown TypeError, w')
         /\ current_request w' = Some r).
Proof.
  unfold wrapped_fetch.
  destruct (fetch_details args now) as [r|[]] eqn:Hd; [|right; left; auto].
  pose proof (current_request_alloc r w) as Hcur.
  destruct (alloc r w) as [a w1]; cbn [fst snd] in Hcur.
  unfold render; rewrite Hcur.
  destruct (httpMessage r) as [text|[]] eqn:Hm; cbn [bind].
  - left; eauto.
  - right; right; exists r; eauto.
Qed.

Lemma header_lines_converts (hs : props) (msg : jstr) :
  Forall (fun kv => converts (snd kv)) hs ->
  exists text, header_lines msg hs = Ok text.
Proof.
  intros H; revert msg; induction H as [|[k v] hs [s Hs] _ IH]; intros msg.
  - now exists msg.
  - cbn [header_lines snd] in *; rewrite Hs; cbn [bind]; apply IH.
Qed.

Lemma formatBody_converts (b : value) :
  converts b -> exists fb, formatBody b = Ok fb.
Proof.
  intros [s Hs]; unfold formatBody.
  destruct (truthy b) eqn:Ht; cbn [negb]; [|eauto].
  destruct b; try discriminate;
    try (unfold call_toString; rewrite Hs; cbn [bind]; eauto; fail).
  - destruct (startsWith (trim s0) (js "<") && endsWith (trim s0) (js ">"));
      eauto.
  - eauto.
Qed.

Lemma httpMessage_converts (r : RequestDetails) :
  converts (method r) -> converts (url r) ->
  Forall (fun kv => converts (snd kv)) (headers r) ->
  converts (body r) ->
  exists text, httpMessage r = Ok text.
Proof.
  intros [m Hm] [u Hu] Hh Hb; unfold httpMessage.
  rewrite Hm, Hu; cbn [bind].
  destruct (header_lines_converts (m ++ js " " ++ u ++ js " HTTP/1.1") Hh)
    as [msg ->].
  destruct (formatBody_converts Hb) as [fb ->]; cbn [bind]; eauto.
Qed.

(** C1, as the code has it.  When the resource is neither [undefined] nor
    [null] and the string conversions of the resource, of the method, of the
    captured header values and of the body do not raise, the wrapped fetch
    captures and stores the record, renders its text with the time of the
    call, and ends in the call of the original fetch with the argument list
    it was given.  It does so whenever the capture and the composition of the
    text both return, and only then: there is no exception handling.  When
    the capture raises, the call ends in that exception (the rejection of the
    returned promise) with the page untouched; when rendering raises, it ends
    in that exception with the record stored and the container as it was; in
    both cases the original fetch is not called. *)
Theorem fetch_forwards_original_arguments (args : list value) (now : Date)
  (w : World) :
  (arg 0 args <> Undefined ->
   arg 0 args <> Null ->
   converts (arg 0 args) ->
   converts (optional_member (arg 1 args) m_method) ->
   Forall (fun kv => converts (snd kv)) (capture_headers (arg 1 args)) ->
   converts (optional_member (arg 1 args) m_body) ->
   exists r text w',
     fetch_details args now = Ok r
     /\ httpMessage r = Ok text
     /\ wrapped_fetch args now w = (Forwarded (originalFetch args), w')
     /\ current_request w' = Some r
     /\ container (display w') = HttpMessage text (hljs w) now)
  /\ match fetch_details args now with
     | Throw e => wrapped_fetch args now w = (Thrown e, w)
     | Ok r =>
         match httpMessage r with
         | Ok text =>
             exists w',
               wrapped_fetch args now w = (Forwarded (originalFetch args), w')
               /\ current_request w' = Some r
               /\ container (display w') = HttpMessage text (hljs w) now
         | Throw e =>
             exists w',
               wrapped_fetch args now w = (Thrown e, w')
               /\ current_request w' = Some r
               /\ container (display w') = container (display w)
         end
     end.
Proof.
  assert (Hcases :
    match fetch_details args now with
    | Throw e => wrapped_fetch args now w = (Thrown e, w)
    | Ok r =>
        match httpMessage r with
        | Ok text =>
            exists w',
              wrapped_fetch args now w = (Forwarded (originalFetch args), w')
              /\ current_request w' = Some r
              /\ container (display w') = HttpMessage text (hljs w) now
        | Throw e =>
            exists w',
              wrapped_fetch args now w = (Thrown e, w')
              /\ current_request w' = Some r
              /\ container (display w') = container (display w)
        end
    end).
  { unfold wrapped_fetch.
    destruct (fetch_details args now) as [r|e] eqn:Hd; [|reflexivity].
    assert (Hnow : timestamp r = now).
    { unfold fetch_details in Hd.
      destruct (call_toString (arg 0 args)); cbn [bind] in Hd;
        [|discriminate].
      injection Hd as <-; reflexivity. }
    unfold alloc, render, current_request.
    cbn [set_lastRequest display lastRequest heap set_heap].
    rewrite nth_error_alloc.
    destruct (httpMessage r) as [text|e]; cbn [bind]; eexists;
      (split; [reflexivity|]);
      cbn [set_container set_lastRequest display lastRequest heap set_heap
             container hljs];
      rewrite nth_error_alloc, ?Hnow; split; reflexivity. }
  split; [|exact Hcases].
  intros Hu Hn [s Hs] Hm Hh Hb.
  assert (Hcall : call_toString (arg 0 args) = Ok s)
    by (unfold call_toString; destruct (arg 0 args); congruence).
  assert (Hok : exists r text,
             fetch_details args now = Ok r /\ httpMessage r = Ok text).
  { unfold fetch_details; rewrite Hcall; cbn [bind].
    match goal with
    | |- exists r text, Ok ?R = Ok r /\ _ =>
        assert (Hmsg : exists text, httpMessage R = Ok text)
    end.
    { apply httpMessage_converts; cbn [method url headers body]; trivial.
      - destruct (truthy _); [exact Hm|eexists; reflexivity].
      - eexists; reflexivity. }
    destruct Hmsg as [text Hmsg]; eexists; exists text.
    split; [reflexivity|exact Hmsg]. }
  destruct Hok as (r & text & Hd & Hmsg).
  rewrite Hd, Hmsg in Hcases; destruct Hcases as (w' & Hw & Hcur & Hcont).
  exists r, text, w'; auto.
Qed.

Lemma fetch_forwards_original_arguments_witness :
  exists r text w',
    fetch_details post_api_args 9%N = Ok r
    /\ httpMessage r = Ok text
    /\ wrapped_fetch post_api_args 9%N (initial_world true true)
       = (Forwarded (originalFetch post_api_args), w')
    /\ current_request w' = Some r
    /\ container (display w') = HttpMessage text true 9%N.
Proof.
  apply (proj1 (fetch_forwards_original_arguments post_api_args 9%N
                  (initial_world true true))).
  - discriminate.
  - discriminate.
  - eexists; reflexivity.
  - eexists; reflexivity.
  - repeat constructor; eexists; reflexivity.
  - eexists; reflexivity.
Defined.

(** C1 fails: called with [null] as the resource (the platform fetch would
    request the URL "null"), the wrapper raises at [resource.toString()] and
    the original fetch is not called; called with a header value that has no
    string conversion, it stores the record, raises in [render()] and the
    original fetch is not called either. *)
Lemma fetch_capture_failure_blocks_forwarding :
  wrapped_fetch [Null] 0%N (initial_world false true)
    = (Thrown TypeError, initial_world false true)
  /\ fst (wrapped_fetch [Null] 0%N (initial_world false true))
     <> Forwarded (originalFetch [Null])
  /\ (let args :=
        [Str (js "/api");
         Object [(js "headers",
                  Object [(js "X", Object [(js "toString", Null)])])]] in
      fst (wrapped_fetch args 0%N (initial_world false true))
        = Thrown TypeError
      /\ fst (wrapped_fetch args 0%N (initial_world false true))
         <> Forwarded (originalFetch args)
      /\ lastRequest
           (display (snd (wrapped_fetch args 0%N (initial_world false true))))
         = Some 0).
Proof.
  repeat split; try discriminate.
Qed.

(** ** Header normalization *)

Module PropsFacts.

Import Props.

Lemma lookup_None_keys (k : jstr) (o : props) :
  lookup k o = None <-> ~ In k (keys o).
Proof.
  induction o as [|[k' v] o IH]; cbn [lookup keys map fst In];
    [tauto|].
  destruct (jstr_eqb k k') eqn:E.
  - apply jstr_eqb_eq in E; subst; split; [discriminate|tauto].
  - apply jstr_eqb_neq in E; unfold keys in IH; rewrite IH.
    split; [intros H [Hk|Hk]; [congruence|tauto]|tauto].
Qed.

Lemma keys_overwrite (k : jstr) (v : value) (o : props) :
  keys (overwrite k v o) = keys o.
Proof.
  induction o as [|[k' v'] o IH]; [reflexivity|].
  cbn [overwrite]; destruct (jstr_eqb k k'); [reflexivity|].
  unfold keys in *; cbn [map fst]; now rewrite IH.
Qed.

Lemma lookup_overwrite (k k1 : jstr) (v : value) (o : props) :
  lookup k o <> None ->
  lookup k1 (overwrite k v o) = if jstr_eqb k1 k then Some v else lookup k1 o.
Proof.
  induction o as [|[k' v'] o IH]; cbn [lookup overwrite]; [congruence|].
  destruct (jstr_eqb k k') eqn:E; intros H.
  - apply jstr_eqb_eq in E; subst k'; cbn [lookup].
    destruct (jstr_eqb k1 k); reflexivity.
  - cbn [lookup]; rewrite (IH H).
    destruct (jstr_eqb k1 k') eqn:E1; [|reflexivity].
    apply jstr_eqb_eq in E1; subst k'.
    now rewrite jstr_eqb_sym, E.
Qed.

Lemma lookup_insert_index (n : N) (k k1 : jstr) (v : value) (o : props) :
  lookup k o = None ->
  lookup k1 (insert_index n k v o)
  = if jstr_eqb k1 k then Some v else lookup k1 o.
Proof.
  induction o as [|[k' v'] o IH]; cbn [lookup insert_index]; intros H.
  - reflexivity.
  - destruct (jstr_eqb k k') eqn:E; [discriminate|].
    destruct (array_index k') as [m|]; [destruct (m <? n)%N|];
      cbn [lookup]; try reflexivity.
    rewrite (IH H).
    destruct (jstr_eqb k1 k') eqn:E1; [|reflexivity].
    apply jstr_eqb_eq in E1; subst k'.
    now rewrite jstr_eqb_sym, E.
Qed.

Lemma lookup_append (k k1 : jstr) (v : value) (o : props) :
  lookup k o = None ->
  lookup k1 (o ++ [(k, v)]) = if jstr_eqb k1 k then Some v else lookup k1 o.
Proof.
  induction o as [|[k' v'] o IH]; cbn [lookup app]; intros H.
  - reflexivity.
  - destruct (jstr_eqb k k') eqn:E; [discriminate|].
    rewrite (IH H).
    destruct (jstr_eqb k1 k') eqn:E1; [|reflexivity].
    apply jstr_eqb_eq in E1; subst k'.
    now rewrite jstr_eqb_sym, E.
Qed.

Lemma lookup_define (k k1 : jstr) (v : value) (o : props) :
  lookup k1 (define o k v) = if jstr_eqb k1 k then Some v else lookup k1 o.
Proof.
  unfold define; destruct (lookup k o) eqn:E.
  - apply lookup_overwrite; congruence.
  - destruct (array_index k);
      [now apply lookup_insert_index|now apply lookup_append].
Qed.

Lemma keys_insert_index (n : N) (k k1 : jstr) (v : value) (o : props) :
  In k1 (keys (insert_index n k v o)) <-> k1 = k \/ In k1 (keys o).
Proof.
  induction o as [|[k' v'] o IH]; cbn [insert_index keys map fst In].
  - intuition congruence.
  - destruct (array_index k') as [m|]; [destruct (m <? n)%N|];
      cbn [keys map fst In]; unfold keys in IH; intuition congruence.
Qed.

Lemma NoDup_insert_index (n : N) (k : jstr) (v : value) (o : props) :
  ~ In k (keys o) -> NoDup (keys o) -> NoDup (keys (insert_index n k v o)).
Proof.
  induction o as [|[k' v'] o IH]; cbn [insert_index keys map fst];
    intros Hk Hnd.
  - constructor; [exact Hk|constructor].
  - assert (Hcons : NoDup (k :: k' :: map fst o)) by now constructor.
    destruct (array_index k') as [m|]; [destruct (m <? n)%N|];
      cbn [keys map fst]; trivial.
    inversion Hnd as [|? ? Hk' Hnd']; subst.
    constructor.
    + change (map fst (insert_index n k v o))
        with (keys (insert_index n k v o)).
      rewrite keys_insert_index; cbn [In] in Hk; intuition congruence.
    + apply IH; [cbn [In] in Hk; tauto|exact Hnd'].
Qed.

Lemma NoDup_define (k : jstr) (v : value) (o : props) :
  NoDup (keys o) -> NoDup (keys (define o k v)).
Proof.
  intros Hnd; unfold define; destruct (lookup k o) eqn:E.
  - now rewrite keys_overwrite.
  - apply lookup_None_keys in E.
    destruct (array_index k); [now apply NoDup_insert_index|].
    unfold keys in *; rewrite map_app; cbn [map fst].
    apply NoDup_rev in Hnd.
    rewrite <- (rev_involutive (map fst o ++ [k])), rev_app_distr.
    apply NoDup_rev; cbn [rev app]; constructor; [|exact Hnd].
    now rewrite <- in_rev.
Qed.

Lemma NoDup_set (k v : jstr) (o : props) :
  NoDup (keys o) -> NoDup (keys (set o k v)).
Proof.
  intros Hnd; unfold set; destruct (jstr_eqb k (js "__proto__"));
    [exact Hnd|now apply NoDup_define].
Qed.

(** Copying a list of properties, one [CreateDataProperty] after the
    other. *)
Lemma fold_define (l init : props) :
  let o := fold_left (fun o kv => define o (fst kv) (snd kv)) l init in
  (NoDup (keys init) -> NoDup (keys o))
  /\ forall k, lookup k o = match last_binding k l with
                            | Some v => Some v
                            | None => lookup k init
                            end.
Proof.
  revert init; induction l as [|[k1 v1] l IH]; intros init;
    cbn [fold_left last_binding fst snd].
  - split; [tauto|reflexivity].
  - destruct (IH (define init k1 v1)) as [Hnd Hlk]; split.
    + intros H; apply Hnd; now apply NoDup_define.
    + intros k; rewrite Hlk, lookup_define.
      destruct (last_binding k l); [reflexivity|].
      destruct (jstr_eqb k k1); reflexivity.
Qed.

(** The loop of [forEach] over the entries of a [Headers] object. *)
Lemma fold_set (es : list (jstr * jstr)) (init : props) :
  let o := fold_left (fun o kv => set o (fst kv) (snd kv)) es init in
  (NoDup (keys init) -> NoDup (keys o))
  /\ forall k, lookup k o = if jstr_eqb k (js "__proto__")
                            then lookup k init
                            else match last_binding k es with
                                 | Some v => Some (Str v)
                                 | None => lookup k init
                                 end.
Proof.
  revert init; induction es as [|[k1 v1] es IH]; intros init;
    cbn [fold_left last_binding fst snd].
  - split; [tauto|intros k; now destruct (jstr_eqb k _)].
  - destruct (IH (set init k1 v1)) as [Hnd Hlk]; split.
    + intros H; apply Hnd; now apply NoDup_set.
    + intros k; rewrite Hlk; unfold set.
      destruct (jstr_eqb k (js "__proto__")) eqn:Ek.
      * destruct (jstr_eqb k1 (js "__proto__")) eqn:E1; [reflexivity|].
        rewrite lookup_define.
        apply jstr_eqb_eq in Ek; subst k.
        now rewrite jstr_eqb_sym, E1.
      * destruct (last_binding k es); [reflexivity|].
        destruct (jstr_eqb k1 (js "__proto__")) eqn:E1.
        -- apply jstr_eqb_eq in E1; subst k1; now rewrite Ek.
        -- rewrite lookup_define; destruct (jstr_eqb k k1); reflexivity.
Qed.

(** An object without array-index keys is copied entry for entry, in
    order. *)
Lemma fold_define_plain (l init : props) :
  NoDup (keys (init ++ l)) ->
  Forall (fun kv => array_index (fst kv) = None) l ->
  fold_left (fun o kv => define o (fst kv) (snd kv)) l init = init ++ l.
Proof.
  revert init; induction l as [|[k v] l IH]; intros init Hnd Hidx;
    cbn [fold_left fst snd].
  - now rewrite app_nil_r.
  - inversion Hidx as [|? ? Hk Hl]; subst; cbn [fst] in Hk.
    assert (Hnew : lookup k init = None).
    { apply lookup_None_keys; unfold keys in *.
      rewrite map_app in Hnd; cbn [map fst] in Hnd.
      apply NoDup_remove_2 in Hnd; rewrite in_app_iff in Hnd; tauto. }
    unfold define at 2; rewrite Hnew, Hk.
    replace (init ++ (k, v) :: l) with ((init ++ [(k, v)]) ++ l) in *
      by (rewrite <- app_assoc; reflexivity).
    now apply IH.
Qed.

End PropsFacts.

(** A plain object whose keys are not array indices is captured entry for
    entry, in its own order. *)
Lemma capture_headers_plain_copy (config : value) (o : props) :
  optional_member config m_headers = Object o ->
  NoDup (Props.keys o) ->
  Forall (fun kv => array_index (fst kv) = None) o ->
  capture_headers config = o.
Proof.
  intros Hh Hnd Hidx; unfold capture_headers; rewrite Hh.
  cbn [truthy typeof_object]; unfold Props.spread; cbn [Props.own_enumerable].
  now rewrite PropsFacts.fold_define_plain.
Qed.

(** What [capture_headers] gives for each shape of the headers value.  The
    captured mapping never has two entries of one name.  A [Headers] instance is recognized first (it is an object as
    well, and spreading it would give nothing): every name its [forEach]
    visits, except [__proto__], is mapped to the last value visited for it,
    and no other name is mapped.  Every other object has its own enumerable
    properties copied: those of a plain object, and also the elements of an
    array under their indices.  A [Request], a [FormData], another host
    object, and every value that is falsy or not an object give the empty
    mapping. *)
Theorem capture_headers_by_shape (config : value) :
  let h := optional_member config m_headers in
  let m := capture_headers config in
  NoDup (Props.keys m)
  /\ match h with
     | Headers es =>
         typeof_object h = true
         /\ Props.spread h = []
         /\ forall k,
             Props.lookup k m
             = if jstr_eqb k (js "__proto__") then None
               else option_map Str (last_binding k es)
     | Object o => forall k, Props.lookup k m = last_binding k o
     | Array elems =>
         forall k, Props.lookup k m = last_binding k (Props.indexed 0 elems)
     | _ => m = []
     end.
Proof.
  cbv zeta; unfold capture_headers.
  destruct (optional_member config m_headers) as
    [ | |b|s|o|elems|es|u meth hs hb|es|repr];
    cbn [truthy typeof_object]; try (split; [constructor|reflexivity]).
  - destruct b; split; constructor.
  - destruct (negb (jstr_eqb s [])); split; constructor.
  - destruct (PropsFacts.fold_define o []) as [Hnd Hlk]; split.
    + apply Hnd; constructor.
    + intros k; unfold Props.spread; cbn [Props.own_enumerable].
      rewrite Hlk; now destruct (last_binding k o).
  - destruct (PropsFacts.fold_define (Props.indexed 0 elems) [])
      as [Hnd Hlk]; split.
    + apply Hnd; constructor.
    + intros k; unfold Props.spread; cbn [Props.own_enumerable].
      rewrite Hlk; now destruct (last_binding k (Props.indexed 0 elems)).
  - destruct (PropsFacts.fold_set es []) as [Hnd Hlk]; split.
    + apply Hnd; constructor.
    + repeat split; intros k; rewrite Hlk.
      destruct (jstr_eqb k (js "__proto__")); [reflexivity|].
      now destruct (last_binding k es).
Qed.

(** C4 holds of the comments of the code ("Extract headers properly",
    "Handle plain object") and not of its test: the headers value
    [[["A","1"]]], a sequence of pairs as [fetch] accepts it, is neither a
    [Headers] instance nor a plain object, yet [typeof] calls it an object,
    so it is spread and the captured mapping is [{"0": ["A","1"]}] and not
    empty.  A [Headers] instance with the name [__proto__] leaves no entry
    for that name. *)
Lemma capture_headers_array_not_empty :
  capture_headers
    (Object [(js "headers", Array [Array [Str (js "A"); Str (js "1")]])])
  = [(js "0", Array [Str (js "A"); Str (js "1")])]
  /\ capture_headers
       (Object [(js "headers", Array [Array [Str (js "A"); Str (js "1")]])])
     <> []
  /\ capture_headers
       (Object [(js "headers", Headers [(js "__proto__", js "x")])])
     = [].
Proof.
  repeat split; discriminate.
Qed.

(** ** The store *)

Lemma length_update (a : nat) f (h : list RequestDetails) :
  List.length (update a f h) = List.length h.
Proof.
  revert a; induction h as [|r h IH]; intros [|a]; cbn [update List.length];
    auto.
Qed.

Lemma render_wf (w w' : World) :
  render w = Ok w' -> wf_world w -> wf_world w'.
Proof.
  intros H; apply render_sets_container in H as [c ->]; auto.
Qed.

(** The slot of the display never dangles. *)
Lemma wrapped_fetch_wf (args : list value) (now : Date) (w : World) :
  wf_world w -> wf_world (snd (wrapped_fetch args now w)).
Proof.
  intros Hw; unfold wrapped_fetch.
  destruct (fetch_details args now) as [r|e]; [|exact Hw].
  assert (Hw2 : wf_world (set_lastRequest (fst (alloc r w)) (snd (alloc r w)))).
  { unfold wf_world, allocated; cbn.
    rewrite length_app; cbn [List.length]; lia. }
  destruct (alloc r w) as [a w1]; cbn [fst snd] in Hw2.
  destruct (render (set_lastRequest a w1)) as [w3|e] eqn:Hr; cbn [snd];
    [exact (@render_wf _ _ Hr Hw2)|exact Hw2].
Qed.

Lemma xhr_step_wf (c : xhr_call) (x : XHR) (w : World) :
  wf_world w -> allocated (_requestDetails x) w ->
  wf_world (snd (xhr_step c x w))
  /\ allocated (_requestDetails (snd (fst (xhr_step c x w))))
       (snd (xhr_step c x w)).
Proof.
  intros Hw Hx; destruct c as [args now|h v|args]; cbn [xhr_step].
  - unfold wrapped_open, alloc, wf_world, allocated in *; cbn.
    rewrite length_app; cbn [List.length].
    destruct (lastRequest (display w)); split; try lia; trivial.
  - unfold wrapped_setRequestHeader, wf_world in *; cbn [fst snd].
    destruct (_requestDetails x) as [a|]; [|auto].
    unfold allocated in *; cbn [heap set_heap display].
    rewrite length_update; auto.
  - unfold wrapped_send.
    destruct (_requestDetails x) as [a|] eqn:Ex;
      [|cbn [fst snd]; rewrite Ex; auto].
    match goal with
    | |- context [set_heap ?h w] => set (w1 := set_heap h w)
    end.
    assert (Ha : a < List.length (heap w1))
      by (subst w1; cbn; rewrite length_update; exact Hx).
    assert (Hw1 : wf_world w1).
    { subst w1; unfold wf_world, allocated in *; cbn.
      rewrite length_update; exact Hw. }
    destruct (in_document w1); [|cbn [fst snd]; rewrite Ex; auto].
    assert (Hw2 : wf_world (set_lastRequest a w1)) by exact Ha.
    destruct (render (set_lastRequest a w1)) as [w3|e] eqn:Hr; cbn [fst snd];
      rewrite Ex.
    + split; [exact (@render_wf _ _ Hr Hw2)|].
      apply render_sets_container in Hr as [c ->]; exact Ha.
    + split; [exact Hw2|exact Ha].
Qed.

(** The record delivered by [send] is the object attached to the XHR object,
    not a copy: a header set afterwards shows in the record the display
    holds, while the container keeps the text rendered at [send]. *)
Example xhr_record_is_shared :
  let calls := get_x_calls 1%N ++ [setRequestHeader (js "C") (js "3")] in
  let w' := snd (xhr_run calls new_XHR (initial_world false true)) in
  option_map headers (current_request w')
  = Some [(js "A", Str (js "1")); (js "B", Str (js "2"));
          (js "C", Str (js "3"))]
  /\ container (display w')
     = HttpMessage
         (js "GET /x HTTP/1.1" ++ [c_nl] ++ js "A: 1" ++ [c_nl] ++ js "B: 2")
         false 1%N.
Proof.
  split; reflexivity.
Qed.

(** ** Facts on [trim], [split] and [join] *)

Module StringFacts.

Lemma trimStart_app_white (p s : jstr) :
  all_white p = true -> trimStart (p ++ s) = trimStart s.
Proof.
  induction p as [|c p IH]; cbn [all_white forallb app trimStart];
    [reflexivity|].
  intros H; apply andb_true_iff in H as [Hc Hp]; rewrite Hc; exact (IH Hp).
Qed.

Lemma trimStart_idem (s : jstr) : trimStart (trimStart s) = trimStart s.
Proof.
  induction s as [|c s IH]; cbn [trimStart]; [reflexivity|].
  destruct (is_white c) eqn:E; [exact IH|].
  cbn [trimStart]; now rewrite E.
Qed.

Lemma trimStart_snoc (u : jstr) (c : N) :
  is_white c = false -> trimStart (u ++ [c]) = trimStart u ++ [c].
Proof.
  intros Hc; induction u as [|d u IH]; cbn [app trimStart].
  - now rewrite Hc.
  - destruct (is_white d); [exact IH|reflexivity].
Qed.

Lemma trimEnd_idem (s : jstr) : trimEnd (trimEnd s) = trimEnd s.
Proof.
  unfold trimEnd; now rewrite rev_involutive, trimStart_idem.
Qed.

(** What [trimStart] leaves is empty or begins with a character it keeps. *)
Lemma trimStart_fixed (s : jstr) :
  trimStart s = s <-> match s with
                      | [] => True
                      | c :: _ => is_white c = false
                      end.
Proof.
  destruct s as [|c s]; cbn [trimStart]; [tauto|].
  destruct (is_white c) eqn:E; split; try congruence; try tauto.
  intros H; exfalso.
  assert (Hlen : List.length (trimStart s) <= List.length s).
  { clear; induction s as [|d s IH]; cbn [trimStart List.length]; [lia|].
    destruct (is_white d); cbn [List.length]; lia. }
  rewrite H in Hlen; cbn [List.length] in Hlen; lia.
Qed.

Lemma trimStart_trimEnd (t : jstr) :
  trimStart t = t -> trimStart (trimEnd t) = trimEnd t.
Proof.
  intros H; destruct t as [|c t]; [reflexivity|].
  apply trimStart_fixed in H.
  unfold trimEnd; cbn [rev].
  rewrite (@trimStart_snoc (rev t) c H), rev_app_distr; cbn [rev app].
  apply trimStart_fixed; exact H.
Qed.

Lemma trimStart_trim (s : jstr) : trimStart (trim s) = trim s.
Proof.
  unfold trim; apply trimStart_trimEnd, trimStart_idem.
Qed.

Lemma trimEnd_trim (s : jstr) : trimEnd (trim s) = trim s.
Proof.
  unfold trim; apply trimEnd_idem.
Qed.

Lemma trim_idem (s : jstr) : trim (trim s) = trim s.
Proof.
  unfold trim at 1; now rewrite trimStart_trim, trimEnd_trim.
Qed.

(** A trimmed string behind characters [trim] removes. *)
Lemma trim_white_prefix (p t : jstr) :
  all_white p = true -> trimStart t = t -> trimEnd t = t ->
  trim (p ++ t) = t.
Proof.
  intros Hp Hs He; unfold trim.
  now rewrite (@trimStart_app_white p t Hp), Hs.
Qed.

(** [trimEnd] keeps everything up to a string it keeps whole. *)
Lemma trimEnd_app_fixed (a t : jstr) :
  t <> [] -> trimEnd t = t -> trimEnd (a ++ t) = a ++ t.
Proof.
  intros Hne He; unfold trimEnd in *.
  assert (Hrev : trimStart (rev t) = rev t).
  { rewrite <- (rev_involutive (trimStart (rev t))), He; reflexivity. }
  rewrite rev_app_distr.
  destruct (rev t) as [|c u] eqn:Er.
  - exfalso; apply Hne; rewrite <- (rev_involutive t), Er; reflexivity.
  - apply trimStart_fixed in Hrev.
    assert (Hfix : trimStart ((c :: u) ++ rev a) = (c :: u) ++ rev a)
      by (apply trimStart_fixed; exact Hrev).
    rewrite Hfix, <- Er, <- rev_app_distr; apply rev_involutive.
Qed.

Lemma trimEnd_app_white (s p : jstr) :
  all_white p = true -> trimEnd (s ++ p) = trimEnd s.
Proof.
  intros Hp; unfold trimEnd; rewrite rev_app_distr.
  rewrite trimStart_app_white; [reflexivity|].
  unfold all_white in *; rewrite forallb_forall in *.
  intros c Hc; apply Hp; now apply in_rev.
Qed.

Lemma has_nl_app (a b : jstr) : has_nl (a ++ b) = has_nl a || has_nl b.
Proof. apply existsb_app. Qed.

Lemma has_nl_rev (s : jstr) : has_nl (rev s) = has_nl s.
Proof.
  induction s as [|c s IH]; [reflexivity|].
  cbn [rev]; rewrite has_nl_app, IH; cbn [has_nl existsb].
  rewrite orb_false_r; apply orb_comm.
Qed.

Lemma has_nl_trimStart (s : jstr) :
  has_nl s = false -> has_nl (trimStart s) = false.
Proof.
  induction s as [|c s IH]; cbn [trimStart]; [reflexivity|].
  destruct (is_white c); [|tauto].
  cbn [has_nl existsb]; intros H; apply orb_false_iff in H as [_ H].
  exact (IH H).
Qed.

Lemma has_nl_trim (s : jstr) : has_nl s = false -> has_nl (trim s) = false.
Proof.
  intros H; unfold trim, trimEnd.
  rewrite has_nl_rev; apply has_nl_trimStart.
  rewrite has_nl_rev; now apply has_nl_trimStart.
Qed.

Lemma split_nl_no_nl (a : jstr) : has_nl a = false -> split_nl a = [a].
Proof.
  induction a as [|c a IH]; [reflexivity|].
  cbn [has_nl existsb split_nl]; intros H.
  apply orb_false_iff in H as [Hc Ha].
  rewrite N.eqb_sym, Hc, (IH Ha); reflexivity.
Qed.

Lemma split_nl_app (a b : jstr) :
  has_nl a = false -> split_nl (a ++ c_nl :: b) = a :: split_nl b.
Proof.
  induction a as [|c a IH]; cbn [has_nl existsb split_nl app]; intros H.
  - now rewrite N.eqb_refl.
  - apply orb_false_iff in H as [Hc Ha].
    rewrite N.eqb_sym, Hc, (IH Ha); reflexivity.
Qed.

Lemma split_nl_lines (s : jstr) :
  Forall (fun l => has_nl l = false) (split_nl s).
Proof.
  induction s as [|c s IH]; cbn [split_nl]; [repeat constructor|].
  destruct (N.eqb c c_nl) eqn:E; [constructor; [reflexivity|exact IH]|].
  destruct (split_nl s) as [|l ls]; [repeat constructor|].
  - cbn [has_nl existsb]; now rewrite N.eqb_sym, E.
  - inversion IH; subst; constructor; [|assumption].
    cbn [has_nl existsb]; rewrite N.eqb_sym, E; assumption.
Qed.

(** [split] undoes [join] on lines without line feed. *)
Lemma split_nl_join (ls : list jstr) :
  ls <> [] -> Forall (fun l => has_nl l = false) ls ->
  split_nl (join [c_nl] ls) = ls.
Proof.
  induction ls as [|l ls IH]; [congruence|].
  intros _ H; inversion H as [|? ? Hl Hls]; subst.
  destruct ls as [|l' ls].
  - now apply split_nl_no_nl.
  - change (join [c_nl] (l :: l' :: ls))
      with (l ++ c_nl :: join [c_nl] (l' :: ls)).
    rewrite (@split_nl_app l _ Hl), IH; [reflexivity|discriminate|].
    exact Hls.
Qed.

Lemma split_nl_nonempty (s : jstr) : split_nl s <> [].
Proof.
  destruct s as [|c s]; cbn [split_nl]; [discriminate|].
  destruct (N.eqb c c_nl); [discriminate|].
  destruct (split_nl s); discriminate.
Qed.

(** [join] undoes [split]. *)
Lemma join_split_nl (s : jstr) : join [c_nl] (split_nl s) = s.
Proof.
  induction s as [|c s IH]; [reflexivity|].
  cbn [split_nl]; pose proof (split_nl_nonempty s) as Hne.
  destruct (split_nl s) as [|l ls]; [congruence|].
  destruct (N.eqb c c_nl) eqn:E.
  - apply N.eqb_eq in E; subst c.
    change (join [c_nl] ([] :: l :: ls)) with (c_nl :: join [c_nl] (l :: ls)).
    now rewrite IH.
  - destruct ls; cbn [join app] in *; now rewrite <- IH.
Qed.

End StringFacts.

(** ** The tag breaking of [formatHtml] *)

Module HtmlFacts.

Import StringFacts.

Lemma includes_gt_lt_nil : includes [] (js "><") = false.
Proof. reflexivity. Qed.

Lemma includes_gt_lt_cons (c : N) (s : jstr) :
  includes (c :: s) (js "><")
  = (N.eqb c c_gt && match s with
                     | d :: _ => N.eqb d c_lt
                     | [] => false
                     end)
    || includes s (js "><").
Proof.
  change (js "><") with [c_gt; c_lt].
  cbn [includes startsWith]; destruct s as [|d s]; [reflexivity|].
  cbn [startsWith]; destruct s; now rewrite andb_true_r.
Qed.

Lemma replace_gt_lt_head (c : N) (s : jstr) :
  exists r, replace_gt_lt (c :: s) = c :: r.
Proof.
  cbn [replace_gt_lt]; destruct s as [|d s]; [eauto|].
  destruct (N.eqb c c_gt && N.eqb d c_lt) eqn:E; [|eauto].
  apply andb_true_iff in E as [E _]; apply N.eqb_eq in E; subst c; eauto.
Qed.

Lemma replace_gt_lt_pair (c d : N) (s : jstr) :
  replace_gt_lt (c :: d :: s)
  = if N.eqb c c_gt && N.eqb d c_lt
    then c_gt :: c_nl :: c_lt :: replace_gt_lt s
    else c :: replace_gt_lt (d :: s).
Proof. reflexivity. Qed.

Lemma replace_gt_lt_clean_upto (n : nat) (s : jstr) :
  List.length s <= n -> includes (replace_gt_lt s) (js "><") = false.
Proof.
  revert s; induction n as [|n IH]; intros [|c s] Hlen;
    cbn [List.length] in Hlen; try reflexivity; try lia.
  destruct s as [|d s].
  { cbn [replace_gt_lt]; now rewrite includes_gt_lt_cons, andb_false_r. }
  rewrite replace_gt_lt_pair;
    destruct (N.eqb c c_gt && N.eqb d c_lt) eqn:E.
  - rewrite !includes_gt_lt_cons.
    change (N.eqb c_nl c_gt) with false; change (N.eqb c_nl c_lt) with false.
    change (N.eqb c_lt c_gt) with false.
    rewrite andb_false_r; cbn [andb orb].
    apply IH; cbn [List.length] in Hlen; lia.
  - destruct (replace_gt_lt_head d s) as [r Hr].
    rewrite includes_gt_lt_cons, Hr, E, <- Hr; cbn [orb].
    apply IH; cbn [List.length] in *; lia.
Qed.

(** Without a [>] right before a [<] there is nothing to break. *)
Lemma replace_gt_lt_same (s : jstr) :
  includes s (js "><") = false -> replace_gt_lt s = s.
Proof.
  induction s as [|c s IH]; [reflexivity|].
  rewrite includes_gt_lt_cons; intros H.
  apply orb_false_iff in H as [Hhere Hrest].
  destruct s as [|d s]; [reflexivity|].
  now rewrite replace_gt_lt_pair, Hhere, (IH Hrest).
Qed.

(** X1: after the replacement of [formatHtml] no [>] is right before a [<],
    the replacement changes nothing a second time, and it changes nothing at
    all in a text that has no [>] right before a [<]. *)
Theorem replace_gt_lt_breaks_every_pair (s : jstr) :
  includes (replace_gt_lt s) (js "><") = false
  /\ replace_gt_lt (replace_gt_lt s) = replace_gt_lt s
  /\ (if includes s (js "><") then replace_gt_lt s <> s
      else replace_gt_lt s = s).
Proof.
  assert (H : includes (replace_gt_lt s) (js "><") = false)
    by exact (@replace_gt_lt_clean_upto (List.length s) s (le_n _)).
  repeat split; [exact H|now apply replace_gt_lt_same|].
  destruct (includes s (js "><")) eqn:E; [|now apply replace_gt_lt_same].
  intros Heq; rewrite Heq in H; congruence.
Qed.

End HtmlFacts.

(** ** The loop of [formatHtml] *)

Module LoopFacts.

Import StringFacts HtmlFacts.

Lemma formatHtml_line_trim (st : jstr * Z) (raw : jstr) :
  formatHtml_line st (trim raw) = formatHtml_line st raw.
Proof.
  unfold formatHtml_line; now rewrite trim_idem.
Qed.

Lemma formatHtml_line_emit (st : jstr * Z) (raw : jstr) :
  trim raw <> [] ->
  exists n i,
    formatHtml_line st raw
    = (fst st ++ indented (n, trim raw) ++ [c_nl], i).
Proof.
  intros H; apply jstr_eqb_neq in H; unfold formatHtml_line; rewrite H.
  cbv zeta; do 2 eexists; unfold indented; cbn [fst snd].
  rewrite <- app_assoc; reflexivity.
Qed.

(** The loop sees its input through [trim] and skips blank lines. *)
Lemma fold_nonblank (L : list jstr) (st : jstr * Z) :
  fold_left formatHtml_line
    (filter (fun l => negb (jstr_eqb l [])) (map trim L)) st
  = fold_left formatHtml_line L st.
Proof.
  revert st; induction L as [|raw L IH]; intros st; [reflexivity|].
  cbn [map filter fold_left].
  destruct (jstr_eqb (trim raw) []) eqn:E; cbn [negb].
  - apply jstr_eqb_eq in E.
    now rewrite IH, (@formatHtml_line_blank st raw E).
  - cbn [fold_left]; now rewrite IH, formatHtml_line_trim.
Qed.

Lemma fold_shape (T : list jstr) (st : jstr * Z) :
  Forall (fun t => t <> [] /\ trim t = t) T ->
  exists ns,
    List.length ns = List.length T
    /\ fst (fold_left formatHtml_line T st)
       = fst st ++ List.concat (map (fun it => indented it ++ [c_nl])
                             (combine ns T)).
Proof.
  intros H; revert st; induction H as [|t T [Hne Ht] _ IH]; intros st.
  - exists []; cbn; now rewrite app_nil_r.
  - cbn [fold_left].
    assert (Hne' : trim t <> []) by now rewrite Ht.
    destruct (@formatHtml_line_emit st t Hne') as (n & i & ->).
    destruct (IH (fst st ++ indented (n, trim t) ++ [c_nl], i))
      as (ns & Hlen & ->).
    exists (n :: ns); split; [cbn [List.length]; now rewrite Hlen|].
    cbn [fst combine map List.concat]; rewrite Ht, <- !app_assoc; reflexivity.
Qed.

Lemma spaces_white (n : nat) : all_white (repeat_str (js "  ") n) = true.
Proof. induction n as [|n IH]; [reflexivity|exact IH]. Qed.

Lemma spaces_no_nl (n : nat) : has_nl (repeat_str (js "  ") n) = false.
Proof. induction n as [|n IH]; [reflexivity|exact IH]. Qed.

Lemma join_cons_app (sep a b : jstr) (R : list jstr) :
  join sep ((a ++ b) :: R) = a ++ join sep (b :: R).
Proof.
  destruct R as [|r R]; cbn [join]; [reflexivity|now rewrite <- app_assoc].
Qed.

Lemma join_two (sep a b : jstr) (R : list jstr) :
  join sep (a :: b :: R) = a ++ sep ++ join sep (b :: R).
Proof. reflexivity. Qed.

Lemma flat_join (items : list (nat * jstr)) :
  items <> [] ->
  List.concat (map (fun it => indented it ++ [c_nl]) items)
  = join [c_nl] (map indented items) ++ [c_nl].
Proof.
  induction items as [|it items IH]; [congruence|intros _].
  destruct items as [|it' items].
  - cbn [map List.concat join]; now rewrite app_nil_r.
  - cbn [map List.concat] in *; rewrite IH by discriminate.
    rewrite join_two, <- !app_assoc; reflexivity.
Qed.

Lemma join_ends_fixed (sep : jstr) (ls : list jstr) :
  ls <> [] ->
  Forall (fun l => exists a t, l = a ++ t /\ t <> [] /\ trimEnd t = t) ls ->
  exists a t, join sep ls = a ++ t /\ t <> [] /\ trimEnd t = t.
Proof.
  induction ls as [|l ls IH]; [congruence|intros _ H].
  inversion H as [|? ? Hl Hls]; subst.
  destruct ls as [|l' ls]; [exact Hl|].
  destruct (IH ltac:(discriminate) Hls) as (a & t & Hj & Hne & Ht).
  exists (l ++ sep ++ a), t; repeat split; trivial.
  rewrite join_two, Hj, <- !app_assoc; reflexivity.
Qed.

(** What the final [trim] of [formatHtml] leaves of the text the loop built:
    the indentation of the first line and the last line feed go. *)
Lemma trim_flat (n : nat) (t : jstr) (rest : list (nat * jstr)) :
  Forall (fun t => t <> [] /\ trimStart t = t /\ trimEnd t = t)
    (t :: map snd rest) ->
  trim (List.concat (map (fun it => indented it ++ [c_nl]) ((n, t) :: rest)))
  = join [c_nl] (t :: map indented rest).
Proof.
  intros H; rewrite flat_join by discriminate.
  cbn [map]; unfold indented at 1; cbn [fst snd].
  rewrite join_cons_app, <- app_assoc; unfold trim.
  rewrite (@trimStart_app_white _ _ (spaces_white n)).
  set (J := join [c_nl] (t :: map indented rest)).
  assert (HJ : exists a u, J = a ++ u /\ u <> [] /\ trimEnd u = u).
  { apply join_ends_fixed; [discriminate|].
    inversion H as [|? ? (Hne & _ & He) Hrest]; subst; constructor.
    - exists [], t; auto.
    - clear -Hrest; induction rest as [|[m u] rest IH]; [constructor|].
      cbn [map snd] in *; inversion Hrest as [|? ? (Hne & _ & He) Hr]; subst.
      constructor; [|exact (IH Hr)].
      exists (repeat_str (js "  ") m), u; auto. }
  assert (Hstart : trimStart (J ++ [c_nl]) = J ++ [c_nl]).
  { inversion H as [|? ? (Hne & Hs & _) _]; subst.
    destruct t as [|c t]; [congruence|].
    apply trimStart_fixed in Hs; apply trimStart_fixed.
    subst J; destruct (map indented rest); exact Hs. }
  rewrite Hstart, (@trimEnd_app_white J [c_nl] eq_refl).
  destruct HJ as (a & u & -> & Hne & Hu).
  now apply trimEnd_app_fixed.
Qed.

End LoopFacts.

(** ** What [formatHtml] returns *)

Module FormatHtmlFacts.

Import StringFacts HtmlFacts LoopFacts.

Lemma nonblank_lines_fixed (html : jstr) :
  Forall (fun t => t <> [] /\ trimStart t = t /\ trimEnd t = t
                   /\ has_nl t = false)
    (nonblank_lines html).
Proof.
  unfold nonblank_lines.
  pose proof (split_nl_lines (replace_gt_lt html)) as H.
  induction H as [|l L Hl _ IH]; cbn [map filter]; [constructor|].
  destruct (jstr_eqb (trim l) []) eqn:E; cbn [negb]; [exact IH|].
  constructor; [|exact IH].
  apply jstr_eqb_neq in E; repeat split;
    [exact E|apply trimStart_trim|apply trimEnd_trim|now apply has_nl_trim].
Qed.

Lemma trim_fixed (t : jstr) : trimStart t = t -> trimEnd t = t -> trim t = t.
Proof. intros Hs He; unfold trim; now rewrite Hs. Qed.

Lemma map_snd_combine (ns : list nat) (T : list jstr) :
  List.length ns = List.length T -> map snd (combine ns T) = T.
Proof.
  revert T; induction ns as [|n ns IH]; intros [|t T]; cbn; try congruence.
  intros [= H]; now rewrite IH.
Qed.

(** [formatHtml] in closed form: the emitted lines, each at some indent
    level, the first one at none, joined by line feeds. *)
Lemma formatHtml_shape (html : jstr) :
  exists items,
    map snd items = nonblank_lines html
    /\ formatHtml html
       = match items with
         | [] => []
         | (_, t) :: rest => join [c_nl] (t :: map indented rest)
         end.
Proof.
  pose proof (nonblank_lines_fixed html) as Hfix.
  unfold formatHtml; cbv zeta.
  rewrite <- fold_nonblank; fold (nonblank_lines html).
  destruct (@fold_shape (nonblank_lines html) ([], 0%Z)) as (ns & Hlen & ->).
  { eapply Forall_impl; [|exact Hfix].
    intros t (Hne & Hs & He & _); split; [exact Hne|now apply trim_fixed]. }
  exists (combine ns (nonblank_lines html)).
  split; [now apply map_snd_combine|].
  cbn [fst app].
  destruct (nonblank_lines html) as [|t T] eqn:ET;
    destruct ns as [|n ns]; try discriminate; [reflexivity|].
  cbn [combine]; apply trim_flat.
  injection Hlen as Hlen; rewrite (@map_snd_combine ns T Hlen).
  eapply Forall_impl; [|exact Hfix]; cbv beta; tauto.
Qed.

Lemma indented_no_nl (it : nat * jstr) :
  has_nl (snd it) = false -> has_nl (indented it) = false.
Proof.
  intros H; unfold indented; now rewrite has_nl_app, spaces_no_nl, H.
Qed.

(** The lines of what [formatHtml] returns. *)
Lemma formatHtml_split (html : jstr) :
  exists n t rest,
    nonblank_lines html = [] /\ formatHtml html = []
    \/ nonblank_lines html = t :: map snd rest
       /\ split_nl (formatHtml html) = indented (n, t) :: map indented rest
       /\ n = 0.
Proof.
  destruct (formatHtml_shape html) as (items & Hsnd & ->).
  pose proof (nonblank_lines_fixed html) as Hfix.
  rewrite <- Hsnd in *; clear Hsnd.
  destruct items as [|[n t] rest]; [exists 0, [], []; left; auto|].
  exists 0, t, rest; right; cbn [map snd] in *; repeat split.
  apply split_nl_join; [discriminate|].
  inversion Hfix as [|? ? (Hne & Hs & He & Hnl) Hrest]; subst.
  constructor; [exact Hnl|].
  clear -Hrest; induction rest as [|[m u] rest IH]; [constructor|].
  cbn [map snd] in *.
  inversion Hrest as [|? ? (Hne & Hs & He & Hnl) Hr]; subst.
  constructor; [now apply indented_no_nl|exact (IH Hr)].
Qed.

Lemma formatHtml_lines_trim (html : jstr) :
  match nonblank_lines html with
  | [] => formatHtml html = []
  | t :: T => map trim (split_nl (formatHtml html)) = t :: T
  end.
Proof.
  pose proof (nonblank_lines_fixed html) as Hfix.
  destruct (formatHtml_split html)
    as (n & t & rest & [[-> H] | (Hl & -> & ->)]); [exact H|].
  rewrite Hl in *; cbn [map].
  inversion Hfix as [|? ? (Hne & Hs & He & Hnl) Hrest]; subst.
  change (indented (0, t)) with t.
  rewrite (@trim_fixed t Hs He); f_equal.
  clear -Hrest; induction rest as [|[m u] rest IH]; [reflexivity|].
  cbn [map snd] in *.
  inversion Hrest as [|? ? (Hne & Hs & He & Hnl) Hr]; subst.
  rewrite (IH Hr); f_equal.
  unfold indented; cbn [fst snd].
  apply trim_white_prefix; trivial.
  apply spaces_white.
Qed.

End FormatHtmlFacts.

(** X2: [formatHtml] changes white space only.  When the input has no line
    that is not blank the result is the empty string.  Otherwise the result
    has one line for every line of the input, broken between [>] and [<],
    that is not blank, in the same order: each is that line trimmed, behind
    some number of two-space indents. *)
Theorem formatHtml_keeps_lines (html : jstr) :
  match nonblank_lines html with
  | [] => formatHtml html = []
  | t :: T =>
      Forall2 (fun out line => exists n, out = indented (n, line))
        (split_nl (formatHtml html)) (t :: T)
      /\ map trim (split_nl (formatHtml html)) = t :: T
  end.
Proof.
  pose proof (FormatHtmlFacts.formatHtml_lines_trim html) as Htrim.
  destruct (FormatHtmlFacts.formatHtml_split html)
    as (n & t & rest & [[-> H] | (Hl & Hsplit & ->)]); [exact H|].
  rewrite Hl in *; split; [|exact Htrim].
  rewrite Hsplit; constructor; [now exists 0|].
  clear; induction rest as [|[m u] rest IH]; cbn [map snd]; constructor;
    [now exists m|exact IH].
Qed.

(** ** Formatting twice *)

Module PairFacts.

Import StringFacts HtmlFacts LoopFacts FormatHtmlFacts.

Lemma pair_tail (c : N) (s : jstr) :
  includes (c :: s) (js "><") = false -> includes s (js "><") = false.
Proof.
  rewrite includes_gt_lt_cons; intros H; now apply orb_false_iff in H.
Qed.

Lemma pair_skip (c : N) (s : jstr) :
  N.eqb c c_gt = false ->
  includes (c :: s) (js "><") = includes s (js "><").
Proof.
  intros H; now rewrite includes_gt_lt_cons, H.
Qed.

Lemma pair_suffix (a b : jstr) :
  includes (a ++ b) (js "><") = false -> includes b (js "><") = false.
Proof.
  induction a as [|c a IH]; [tauto|].
  intros H; apply IH; exact (@pair_tail c _ H).
Qed.

Lemma pair_prefix (a b : jstr) :
  includes (a ++ b) (js "><") = false -> includes a (js "><") = false.
Proof.
  induction a as [|c a IH]; [reflexivity|].
  cbn [app]; rewrite !includes_gt_lt_cons; intros H.
  apply orb_false_iff in H as [Hhere Hrest].
  rewrite (IH Hrest), orb_false_r.
  destruct a as [|d a]; [apply andb_false_r|exact Hhere].
Qed.

Lemma pair_app (a b : jstr) (d : N) :
  includes a (js "><") = false ->
  includes (d :: b) (js "><") = false ->
  N.eqb d c_lt = false ->
  includes (a ++ d :: b) (js "><") = false.
Proof.
  intros Ha Hb Hd; induction a as [|c a IH]; [exact Hb|].
  cbn [app]; rewrite includes_gt_lt_cons in *.
  apply orb_false_iff in Ha as [Hhere Hrest].
  rewrite (IH Hrest), orb_false_r.
  destruct a as [|e a]; cbn [app]; [now rewrite Hd, andb_false_r|exact Hhere].
Qed.

Lemma trimStart_suffix (s : jstr) : exists a, s = a ++ trimStart s.
Proof.
  induction s as [|c s [a IH]]; [now exists []|].
  cbn [trimStart]; destruct (is_white c); [|now exists []].
  exists (c :: a); cbn [app]; now rewrite <- IH.
Qed.

Lemma trimEnd_prefix (s : jstr) : exists b, s = trimEnd s ++ b.
Proof.
  unfold trimEnd; destruct (trimStart_suffix (rev s)) as [a Ha].
  exists (rev a).
  rewrite <- rev_app_distr, <- Ha; symmetry; apply rev_involutive.
Qed.

Lemma pair_trim (s : jstr) :
  includes s (js "><") = false -> includes (trim s) (js "><") = false.
Proof.
  intros H; unfold trim.
  destruct (trimStart_suffix s) as [a Ha]; rewrite Ha in H.
  apply pair_suffix in H.
  destruct (trimEnd_prefix (trimStart s)) as [b Hb]; rewrite Hb in H.
  exact (pair_prefix _ _ H).
Qed.

Lemma pair_join (ls : list jstr) :
  Forall (fun l => includes l (js "><") = false) ls ->
  includes (join [c_nl] ls) (js "><") = false.
Proof.
  induction 1 as [|l ls Hl _ IH]; [reflexivity|].
  destruct ls as [|l' ls]; [exact Hl|].
  rewrite join_two; cbn [app].
  apply pair_app; [exact Hl| |reflexivity].
  now rewrite pair_skip.
Qed.

Lemma pair_join_inv (ls : list jstr) :
  includes (join [c_nl] ls) (js "><") = false ->
  Forall (fun l => includes l (js "><") = false) ls.
Proof.
  induction ls as [|l ls IH]; [constructor|].
  destruct ls as [|l' ls]; [repeat constructor; assumption|].
  rewrite join_two; cbn [app]; intros H; constructor.
  - exact (pair_prefix _ _ H).
  - apply IH; apply pair_suffix in H; exact (@pair_tail c_nl _ H).
Qed.

Lemma pair_indented (n : nat) (t : jstr) :
  includes t (js "><") = false -> includes (indented (n, t)) (js "><") = false.
Proof.
  intros H; unfold indented; cbn [fst snd].
  induction n as [|n IH]; [exact H|].
  change (repeat_str (js "  ") (S n) ++ t)
    with (32%N :: 32%N :: repeat_str (js "  ") n ++ t).
  now rewrite !pair_skip.
Qed.

Lemma nonblank_lines_no_pair (html : jstr) :
  Forall (fun t => includes t (js "><") = false) (nonblank_lines html).
Proof.
  unfold nonblank_lines.
  assert (H : Forall (fun l => includes l (js "><") = false)
                (split_nl (replace_gt_lt html))).
  { apply pair_join_inv; rewrite join_split_nl.
    exact (@replace_gt_lt_clean_upto _ html (le_n _)). }
  induction H as [|l L Hl _ IH]; cbn [map filter]; [constructor|].
  destruct (negb (jstr_eqb (trim l) [])); [|exact IH].
  constructor; [now apply pair_trim|exact IH].
Qed.

Lemma formatHtml_no_pair (html : jstr) :
  includes (formatHtml html) (js "><") = false.
Proof.
  destruct (formatHtml_shape html) as (items & Hsnd & ->).
  pose proof (nonblank_lines_no_pair html) as H; rewrite <- Hsnd in H.
  destruct items as [|[n t] rest]; [reflexivity|].
  cbn [map snd] in H; inversion H as [|? ? Ht Hrest]; subst.
  apply pair_join; constructor; [exact Ht|].
  clear -Hrest; induction rest as [|[m u] rest IH]; [constructor|].
  cbn [map snd] in *; inversion Hrest; subst.
  constructor; [now apply pair_indented|now apply IH].
Qed.

Lemma nonblank_lines_formatHtml (html : jstr) :
  nonblank_lines (formatHtml html) = nonblank_lines html.
Proof.
  unfold nonblank_lines at 1.
  rewrite (@replace_gt_lt_same _ (formatHtml_no_pair html)).
  pose proof (formatHtml_lines_trim html) as H.
  pose proof (nonblank_lines_fixed html) as Hfix.
  destruct (nonblank_lines html) as [|t T]; [now rewrite H|].
  rewrite H; clear H.
  induction Hfix as [|u U (Hne & _) _ IH]; [reflexivity|].
  cbn [filter]; apply jstr_eqb_neq in Hne; rewrite Hne; cbn [negb].
  now rewrite IH.
Qed.

Lemma formatHtml_by_lines (html : jstr) :
  formatHtml html
  = trim (fst (fold_left formatHtml_line (nonblank_lines html) ([], 0%Z))).
Proof.
  unfold formatHtml, nonblank_lines; cbv zeta; now rewrite fold_nonblank.
Qed.

End PairFacts.

(** X3: formatting what [formatHtml] returned gives it back unchanged; what
    it returns has no white space at either end and no [>] right before a
    [<]. *)
Theorem formatHtml_idempotent (html : jstr) :
  formatHtml (formatHtml html) = formatHtml html
  /\ trim (formatHtml html) = formatHtml html
  /\ includes (formatHtml html) (js "><") = false.
Proof.
  repeat split.
  - rewrite (PairFacts.formatHtml_by_lines (formatHtml html)).
    rewrite PairFacts.nonblank_lines_formatHtml.
    symmetry; apply PairFacts.formatHtml_by_lines.
  - unfold formatHtml; cbv zeta; apply StringFacts.trim_idem.
  - apply PairFacts.formatHtml_no_pair.
Qed.

(** ** The indent counter *)

Lemma formatHtml_line_indent (st : jstr * Z) (raw : jstr) :
  (0 <= snd st)%Z ->
  (0 <= snd (formatHtml_line st raw) <= snd st + 1)%Z.
Proof.
  intros H; unfold formatHtml_line.
  destruct (jstr_eqb (trim raw) []); [lia|]; cbv zeta; cbn [snd].
  destruct (startsWith (trim raw) (js "</")); cbn [negb andb];
    rewrite ?andb_false_r;
    destruct (startsWith (trim raw) (js "<")); cbn [andb];
    try destruct (negb (endsWith (trim raw) (js "/>")));
    try destruct (negb (includes (trim raw) (js "</"))); lia.
Qed.

(** X4: the indent counter of [formatHtml] is never negative, whatever the
    lines, so [repeat] is never asked for a negative count; and it is at most
    the number of lines read so far. *)
Theorem formatHtml_indent_bounds (lines : list jstr) (formatted : jstr) :
  (0 <= snd (fold_left formatHtml_line lines (formatted, 0%Z))
     <= Z.of_nat (List.length lines))%Z.
Proof.
  assert (H : forall st, (0 <= snd st)%Z ->
            (0 <= snd (fold_left formatHtml_line lines st)
               <= snd st + Z.of_nat (List.length lines))%Z).
  { induction lines as [|raw lines IH]; intros st Hst;
      [cbn [fold_left List.length]; lia|].
    cbn [fold_left].
    pose proof (@formatHtml_line_indent st raw Hst) as Hstep.
    specialize (IH (formatHtml_line st raw) (proj1 Hstep)).
    cbn [List.length]; lia. }
  apply (H (formatted, 0%Z)); cbn [snd]; lia.
Qed.

(** ** Lines of the rendered text *)

Module MessageFacts.

Import StringFacts.

Lemma split_nl_join_app (ls : list jstr) (b : jstr) :
  ls <> [] -> Forall (fun l => has_nl l = false) ls ->
  split_nl (join [c_nl] ls ++ c_nl :: b) = ls ++ split_nl b.
Proof.
  induction ls as [|l ls IH]; [congruence|].
  intros _ H; inversion H as [|? ? Hl Hls]; subst.
  destruct ls as [|l' ls].
  - cbn [join app]; now apply split_nl_app.
  - change (join [c_nl] (l :: l' :: ls))
      with (l ++ c_nl :: join [c_nl] (l' :: ls)).
    rewrite <- app_assoc; cbn [app].
    rewrite (@split_nl_app l _ Hl), IH; [reflexivity|discriminate|exact Hls].
Qed.

Lemma join_snoc (ls : list jstr) (l : jstr) :
  ls <> [] -> join [c_nl] (ls ++ [l]) = join [c_nl] ls ++ [c_nl] ++ l.
Proof.
  induction ls as [|a ls IH]; [congruence|intros _].
  destruct ls as [|b ls]; [reflexivity|].
  change (join [c_nl] ((a :: b :: ls) ++ [l]))
    with (a ++ [c_nl] ++ join [c_nl] ((b :: ls) ++ [l])).
  rewrite IH by discriminate.
  change (join [c_nl] (a :: b :: ls))
    with (a ++ [c_nl] ++ join [c_nl] (b :: ls)).
  now rewrite <- !app_assoc.
Qed.

(** The header loop adds one line per header to the lines it starts
    from. *)
Lemma header_lines_join (hs : list (jstr * jstr)) (ls : list jstr) :
  ls <> [] ->
  header_lines (join [c_nl] ls) (map (fun kv => (fst kv, Str (snd kv))) hs)
  = Ok (join [c_nl] (ls ++ map colon_line hs)).
Proof.
  revert ls; induction hs as [|[k v] hs IH]; intros ls Hne.
  - cbn [map header_lines]; now rewrite app_nil_r.
  - cbn [map header_lines fst snd ToString bind].
    replace (join [c_nl] ls ++ [c_nl] ++ k ++ js ": " ++ v)
      with (join [c_nl] (ls ++ [colon_line (k, v)]))
      by (now rewrite join_snoc).
    rewrite IH by (destruct ls; discriminate).
    now rewrite <- app_assoc.
Qed.

Lemma colon_line_no_nl (kv : jstr * jstr) :
  has_nl (fst kv) = false -> has_nl (snd kv) = false ->
  has_nl (colon_line kv) = false.
Proof.
  intros Hk Hv; unfold colon_line; now rewrite !has_nl_app, Hk, Hv.
Qed.

End MessageFacts.

(** X5: a [FormData] body with at least one entry is formatted as one line
    [name: value] per entry, in the order of the entries: splitting the
    result at line feeds gives these lines back when no name or value has a
    line feed. *)
Theorem formatBody_FormData_lines (entries : list (jstr * jstr)) :
  entries <> [] ->
  Forall (fun kv => has_nl (fst kv) = false /\ has_nl (snd kv) = false)
    entries ->
  exists text,
    formatBody (FormData entries) = Ok (Str text)
    /\ text = join [c_nl] (map colon_line entries)
    /\ split_nl text = map colon_line entries.
Proof.
  intros Hne H; eexists; split; [reflexivity|split; [reflexivity|]].
  change (fun kv : jstr * jstr => fst kv ++ js ": " ++ snd kv)
    with colon_line.
  apply StringFacts.split_nl_join.
  - destruct entries; [congruence|discriminate].
  - clear Hne; induction H as [|kv es [Hk Hv] _ IH]; cbn [map];
      constructor; [now apply MessageFacts.colon_line_no_nl|exact IH].
Qed.

Lemma formatBody_FormData_lines_witness :
  exists text,
    formatBody (FormData [(js "a", js "1"); (js "b", js "2")]) = Ok (Str text)
    /\ text = join [c_nl] (map colon_line [(js "a", js "1"); (js "b", js "2")])
    /\ split_nl text = map colon_line [(js "a", js "1"); (js "b", js "2")].
Proof.
  apply (@formatBody_FormData_lines [(js "a", js "1"); (js "b", js "2")]).
  - discriminate.
  - repeat constructor.
Defined.

(** X6: the layout of the rendered text.  For a record whose header values
    are strings, when the method, the URL, the header names and the header
    values have no line feed, the lines of the text are the request line,
    then one line [name: value] per header in the order of the record, and,
    when [formatBody] gives a string that is not empty, an empty line and the
    lines of that string; otherwise nothing follows the headers. *)
Theorem httpMessage_lines (r : RequestDetails) (m u : jstr)
  (hs : list (jstr * jstr)) (fb : value) :
  ToString (method r) = Ok m ->
  ToString (url r) = Ok u ->
  has_nl m = false ->
  has_nl u = false ->
  headers r = map (fun kv => (fst kv, Str (snd kv))) hs ->
  Forall (fun kv => has_nl (fst kv) = false /\ has_nl (snd kv) = false) hs ->
  formatBody (body r) = Ok fb ->
  exists text,
    httpMessage r = Ok text
    /\ split_nl text
       = (m ++ js " " ++ u ++ js " HTTP/1.1")
           :: map colon_line hs
           ++ match fb with
              | Str (c :: b) => [] :: split_nl (c :: b)
              | _ => []
              end.
Proof.
  intros Hm Hu Hmn Hun Hh Hhs Hfb.
  set (line0 := m ++ js " " ++ u ++ js " HTTP/1.1").
  assert (Hlines : Forall (fun l => has_nl l = false)
                     (line0 :: map colon_line hs)).
  { constructor.
    - subst line0; rewrite !StringFacts.has_nl_app, Hmn, Hun; reflexivity.
    - clear -Hhs; induction Hhs as [|kv hs [Hk Hv] _ IH]; cbn [map];
        constructor; [now apply MessageFacts.colon_line_no_nl|exact IH]. }
  unfold httpMessage; rewrite Hm, Hu; cbn [bind]; fold line0.
  change line0 with (join [c_nl] [line0]) at 1.
  rewrite Hh, MessageFacts.header_lines_join by discriminate.
  cbn [bind app]; rewrite Hfb; cbn [bind].
  assert (HJ : split_nl (join [c_nl] (line0 :: map colon_line hs))
               = line0 :: map colon_line hs)
    by (apply StringFacts.split_nl_join; [discriminate|exact Hlines]).
  assert (Hno : forall text,
             text = join [c_nl] (line0 :: map colon_line hs) ->
             split_nl text = line0 :: map colon_line hs ++ []).
  { intros text ->; rewrite app_nil_r; exact HJ. }
  destruct fb as [ | |b|[|c s]|o|elems|es|x1 x2 x3 x4|es|repr];
    cbn [truthy jstr_eqb negb app];
    try (eexists; split; [reflexivity|now apply Hno]).
  - destruct b; eexists; (split; [reflexivity|now apply Hno]).
  - eexists; split; [reflexivity|].
    exact (@MessageFacts.split_nl_join_app (line0 :: map colon_line hs)
             (c_nl :: c :: s) ltac:(discriminate) Hlines).
Qed.

Lemma httpMessage_lines_witness :
  exists text,
    httpMessage {| method := Str (js "POST"); url := Str (js "/api");
                   headers := [(js "X-Test", Str (js "1"))];
                   body := Str (js "hello"); timestamp := 0%N |} = Ok text
    /\ split_nl text
       = [js "POST /api HTTP/1.1"; js "X-Test: 1"; []; js "hello"].
Proof.
  apply (@httpMessage_lines
           {| method := Str (js "POST"); url := Str (js "/api");
              headers := [(js "X-Test", Str (js "1"))];
              body := Str (js "hello"); timestamp := 0%N |}
           (js "POST") (js "/api") [(js "X-Test", js "1")]
           (Str (js "hello")));
    try reflexivity.
  repeat constructor.
Defined.

(** ** Records of XHR objects in the store *)

Lemma nth_error_update (a a' : nat) f (h : list RequestDetails) :
  nth_error (update a f h) a'
  = if Nat.eqb a' a then option_map f (nth_error h a') else nth_error h a'.
Proof.
  revert a a'; induction h as [|r h IH]; intros [|a] [|a'];
    cbn [update nth_error Nat.eqb option_map]; try reflexivity.
  - now destruct (Nat.eqb a' a).
  - apply IH.
Qed.

Lemma keys_define_present (k : jstr) (v : value) (o : props) :
  Props.lookup k o <> None -> Props.keys (Props.define o k v) = Props.keys o.
Proof.
  intros H; unfold Props.define.
  destruct (Props.lookup k o); [apply PropsFacts.keys_overwrite|congruence].
Qed.

(** X7: [setRequestHeader(name, value)] on an XHR object that has a record
    (the name not being [__proto__]): afterwards the record maps the name to
    the value, the last one set, and every other name to what it had; a name
    that was there keeps its place; method, URL, body and timestamp, the
    other records of the store and the display are untouched, and the call is
    forwarded. *)
Theorem setRequestHeader_updates_record (h v : jstr) (x : XHR) (w : World)
  (a : nat) (r : RequestDetails) :
  _requestDetails x = Some a ->
  nth_error (heap w) a = Some r ->
  h <> js "__proto__" ->
  exists r',
    nth_error (heap (snd (wrapped_setRequestHeader h v x w))) a = Some r'
    /\ (forall k, Props.lookup k (headers r')
                  = if jstr_eqb k h then Some (Str v)
                    else Props.lookup k (headers r))
    /\ (Props.lookup h (headers r) <> None ->
        Props.keys (headers r') = Props.keys (headers r))
    /\ (NoDup (Props.keys (headers r)) -> NoDup (Props.keys (headers r')))
    /\ (method r', url r', body r', timestamp r')
       = (method r, url r, body r, timestamp r)
    /\ (forall a', a' <> a ->
          nth_error (heap (snd (wrapped_setRequestHeader h v x w))) a'
          = nth_error (heap w) a')
    /\ display (snd (wrapped_setRequestHeader h v x w)) = display w
    /\ wrapped_setRequestHeader h v x w
       = (Forwarded (originalSetRequestHeader h v), x,
          snd (wrapped_setRequestHeader h v x w)).
Proof.
  intros Hx Hr Hh; unfold wrapped_setRequestHeader; rewrite Hx.
  cbn [snd heap set_heap display].
  eexists; split.
  { rewrite nth_error_update, Nat.eqb_refl, Hr; reflexivity. }
  apply jstr_eqb_neq in Hh.
  cbn [headers method url body timestamp]; unfold Props.set; rewrite Hh.
  repeat split.
  - intros k; apply PropsFacts.lookup_define.
  - apply keys_define_present.
  - apply PropsFacts.NoDup_define.
  - intros a' Ha; rewrite nth_error_update.
    apply Nat.eqb_neq in Ha; now rewrite Ha.
Qed.

Lemma setRequestHeader_updates_record_witness :
  exists r',
    nth_error
      (heap (snd (wrapped_setRequestHeader (js "A") (js "2")
                    (snd (fst (xhr_run (get_x_calls 1%N) new_XHR
                                 (initial_world false true))))
                    (snd (xhr_run (get_x_calls 1%N) new_XHR
                            (initial_world false true)))))) 0
    = Some r'
    /\ Props.lookup (js "A") (headers r') = Some (Str (js "2"))
    /\ Props.keys (headers r') = [js "A"; js "B"].
Proof.
  destruct (@setRequestHeader_updates_record (js "A") (js "2")
              (snd (fst (xhr_run (get_x_calls 1%N) new_XHR
                           (initial_world false true))))
              (snd (xhr_run (get_x_calls 1%N) new_XHR
                      (initial_world false true)))
              0
              {| method := Str (js "GET"); url := Str (js "/x");
                 headers := [(js "A", Str (js "1")); (js "B", Str (js "2"))];
                 body := Null; timestamp := 1%N |}
              eq_refl eq_refl ltac:(discriminate))
    as (r' & Hr' & Hlk & Hkeys & _).
  exists r'; split; [exact Hr'|split].
  - exact (Hlk (js "A")).
  - apply Hkeys; discriminate.
Defined.

(** X8: [send] on an XHR object that has a record stores the body in that
    record; when the display is in the document its slot then refers to this
    very record, whether rendering raises or not, and when rendering returns,
    the container shows the text of the record with its timestamp and the
    call is forwarded. *)
Theorem send_delivers_record (args : list value) (x : XHR) (w : World)
  (a : nat) (r : RequestDetails) :
  _requestDetails x = Some a ->
  nth_error (heap w) a = Some r ->
  in_document w = true ->
  let r' := {| method := method r; url := url r; headers := headers r;
               body := arg 0 args; timestamp := timestamp r |} in
  let w' := snd (wrapped_send args x w) in
  nth_error (heap w') a = Some r'
  /\ lastRequest (display w') = Some a
  /\ current_request w' = Some r'
  /\ match httpMessage r' with
     | Ok text =>
         container (display w') = HttpMessage text (hljs w) (timestamp r)
         /\ fst (fst (wrapped_send args x w)) = Forwarded (originalSend args)
     | Throw e =>
         container (display w') = container (display w)
         /\ fst (fst (wrapped_send args x w)) = Thrown e
     end.
Proof.
  intros Hx Hr Hdoc; cbv zeta; unfold wrapped_send; rewrite Hx.
  cbn [in_document set_heap]; rewrite Hdoc.
  unfold render, current_request.
  cbn [set_lastRequest display lastRequest heap set_heap hljs].
  rewrite nth_error_update, Nat.eqb_refl, Hr; cbn [option_map].
  destruct (httpMessage _) as [text|e]; cbn [bind fst snd];
    cbn [set_container set_lastRequest display lastRequest heap set_heap
           container timestamp];
    rewrite nth_error_update, Nat.eqb_refl, Hr; repeat split.
Qed.

Lemma send_delivers_record_witness :
  lastRequest
    (display
       (snd (wrapped_send [Str (js "payload")]
               (snd (fst (wrapped_open [Str (js "POST"); Str (js "/x")] 4%N
                            new_XHR (initial_world true true))))
               (snd (wrapped_open [Str (js "POST"); Str (js "/x")] 4%N
                       new_XHR (initial_world true true))))))
  = Some 0.
Proof.
  apply (@send_delivers_record [Str (js "payload")]
           (snd (fst (wrapped_open [Str (js "POST"); Str (js "/x")] 4%N
                        new_XHR (initial_world true true))))
           (snd (wrapped_open [Str (js "POST"); Str (js "/x")] 4%N
                   new_XHR (initial_world true true)))
           0
           {| method := Str (js "POST"); url := Str (js "/x");
              headers := []; body := Undefined; timestamp := 4%N |}
           eq_refl eq_refl eq_refl).
Defined.

(** ** Sequences of XHR calls and the display *)

Lemma xhr_step_env (c : xhr_call) (x : XHR) (w : World) :
  in_document (snd (xhr_step c x w)) = in_document w
  /\ hljs (snd (xhr_step c x w)) = hljs w.
Proof.
  destruct c as [args now|h v|args]; cbn [xhr_step].
  - split; reflexivity.
  - unfold wrapped_setRequestHeader; destruct (_requestDetails x);
      split; reflexivity.
  - unfold wrapped_send; destruct (_requestDetails x) as [a|];
      [|split; reflexivity].
    cbn [in_document set_heap]; destruct (in_document w) eqn:Hdoc;
      [|split; [exact Hdoc|reflexivity]].
    match goal with
    | |- context [render ?w2] => destruct (render w2) as [w3|e] eqn:Hr
    end; cbn [snd]; [|split; [exact Hdoc|reflexivity]].
    apply render_sets_container in Hr as [c ->]; split; [exact Hdoc|].
    reflexivity.
Qed.

(** X9: only [send] touches the display.  Whatever the XHR object and the
    page, a sequence of [open] calls and of [setRequestHeader] calls whose
    name and value are strings raises nothing, forwards every call with its
    arguments, and leaves the slot and the container of the display as they
    were. *)
Theorem xhr_without_send_keeps_display (cs : list xhr_call) (x : XHR)
  (w : World) :
  forallb (fun c => negb (is_send c)) cs = true ->
  fst (fst (xhr_run cs x w)) = map (fun c => Forwarded (forward_of c)) cs
  /\ display (snd (xhr_run cs x w)) = display w.
Proof.
  revert x w; induction cs as [|c cs IH]; intros x w Hcs;
    [split; reflexivity|].
  cbn [forallb] in Hcs; apply andb_true_iff in Hcs as [Hc Hcs].
  cbn [xhr_run map].
  assert (Hstep : fst (fst (xhr_step c x w)) = Forwarded (forward_of c)
                  /\ display (snd (xhr_step c x w)) = display w).
  { destruct c as [args now|h v|args]; [| |discriminate]; cbn [xhr_step].
    - split; reflexivity.
    - unfold wrapped_setRequestHeader; destruct (_requestDetails x);
        split; reflexivity. }
  destruct (xhr_step c x w) as [[o x1] w1]; cbn [fst snd] in Hstep.
  destruct Hstep as [-> Hd].
  specialize (IH x1 w1 Hcs).
  destruct (xhr_run cs x1 w1) as [[os x2] w2]; cbn [fst snd] in *.
  destruct IH as [-> ->]; split; [reflexivity|exact Hd].
Qed.

Lemma xhr_without_send_keeps_display_witness :
  display
    (snd (xhr_run [open [Str (js "GET"); Str (js "/x")] 2%N;
                   setRequestHeader (js "A") (js "1")]
            new_XHR (initial_world false true)))
  = display (initial_world false true).
Proof.
  apply (@xhr_without_send_keeps_display
           [open [Str (js "GET"); Str (js "/x")] 2%N;
            setRequestHeader (js "A") (js "1")]
           new_XHR (initial_world false true)).
  reflexivity.
Defined.

(** X10: when [document.querySelector] finds no display, a sequence of
    [open] and [send] calls and of [setRequestHeader] calls whose name and
    value are strings raises nothing of the wrappers' own: every call is
    forwarded with its arguments, and the display is left as it was. *)
Theorem xhr_without_display_is_silent (cs : list xhr_call) (x : XHR)
  (w : World) :
  in_document w = false ->
  fst (fst (xhr_run cs x w)) = map (fun c => Forwarded (forward_of c)) cs
  /\ display (snd (xhr_run cs x w)) = display w.
Proof.
  revert x w; induction cs as [|c cs IH]; intros x w Hdoc;
    [split; reflexivity|].
  cbn [xhr_run map].
  assert (Hstep : fst (fst (xhr_step c x w)) = Forwarded (forward_of c)
                  /\ display (snd (xhr_step c x w)) = display w).
  { destruct c as [args now|h v|args]; cbn [xhr_step].
    - split; reflexivity.
    - unfold wrapped_setRequestHeader; destruct (_requestDetails x);
        split; reflexivity.
    - unfold wrapped_send; destruct (_requestDetails x);
        [|split; reflexivity].
      cbn [in_document set_heap]; rewrite Hdoc; split; reflexivity. }
  pose proof (xhr_step_env c x w) as [Henv _]; rewrite Hdoc in Henv.
  destruct (xhr_step c x w) as [[o x1] w1]; cbn [fst snd] in Hstep, Henv.
  destruct Hstep as [-> Hd].
  specialize (IH x1 w1 Henv).
  destruct (xhr_run cs x1 w1) as [[os x2] w2]; cbn [fst snd] in *.
  destruct IH as [-> ->]; split; [reflexivity|exact Hd].
Qed.

Lemma xhr_without_display_is_silent_witness :
  fst (fst (xhr_run (get_x_calls 1%N) new_XHR (initial_world true false)))
  = map (fun c => Forwarded (forward_of c)) (get_x_calls 1%N)
  /\ display (snd (xhr_run (get_x_calls 1%N) new_XHR
                     (initial_world true false)))
     = display (initial_world true false).
Proof.
  apply (@xhr_without_display_is_silent (get_x_calls 1%N) new_XHR
           (initial_world true false)).
  reflexivity.
Defined.

Lemma xhr_step_keeps (c : xhr_call) (x : XHR) (w : World) :
  allocated (_requestDetails x) w ->
  List.length (heap w) <= List.length (heap (snd (xhr_step c x w)))
  /\ (lastRequest (display w) <> None ->
      lastRequest (display (snd (xhr_step c x w))) <> None)
  /\ (is_message (container (display w)) = true ->
      is_message (container (display (snd (xhr_step c x w)))) = true).
Proof.
  intros Hx; destruct c as [args now|h v|args]; cbn [xhr_step].
  - unfold wrapped_open, alloc; cbn; rewrite length_app; cbn [List.length].
    repeat split; [lia|tauto|tauto].
  - unfold wrapped_setRequestHeader; destruct (_requestDetails x); cbn;
      rewrite ?length_update; repeat split; auto.
  - unfold wrapped_send; destruct (_requestDetails x) as [a|];
      [|cbn; repeat split; auto].
    cbn [in_document set_heap];
      destruct (in_document w); [|cbn; rewrite length_update; auto].
    unfold render, current_request.
    cbn [set_lastRequest display lastRequest heap set_heap].
    destruct (nth_error (update a _ (heap w)) a) as [r|] eqn:Hr.
    + destruct (httpMessage r); cbn; rewrite length_update;
        repeat split; auto; discriminate.
    + exfalso; apply nth_error_None in Hr.
      rewrite length_update in Hr; cbn [allocated] in Hx; lia.
Qed.

(** X11: along any sequence of calls on an XHR object whose record, if it has
    one, is in the store: the slot of the display keeps referring to a stored
    record, so does the object, the store loses no record, a slot that holds
    a record is never emptied, and a container that shows a message never
    goes back to the placeholder. *)
Theorem xhr_run_invariants (cs : list xhr_call) (x : XHR) (w : World) :
  wf_world w ->
  allocated (_requestDetails x) w ->
  wf_world (snd (xhr_run cs x w))
  /\ allocated (_requestDetails (snd (fst (xhr_run cs x w))))
       (snd (xhr_run cs x w))
  /\ List.length (heap w) <= List.length (heap (snd (xhr_run cs x w)))
  /\ (lastRequest (display w) <> None ->
      lastRequest (display (snd (xhr_run cs x w))) <> None)
  /\ (is_message (container (display w)) = true ->
      is_message (container (display (snd (xhr_run cs x w)))) = true).
Proof.
  revert x w; induction cs as [|c cs IH]; intros x w Hw Hx.
  - cbn [xhr_run fst snd]; repeat split; auto.
  - cbn [xhr_run].
    destruct (@xhr_step_wf c x w Hw Hx) as [Hw1 Hx1].
    destruct (@xhr_step_keeps c x w Hx) as (Hlen & Hslot & Hmsg).
    destruct (xhr_step c x w) as [[o x1] w1]; cbn [fst snd] in *.
    specialize (IH x1 w1 Hw1 Hx1).
    destruct (xhr_run cs x1 w1) as [[os x2] w2]; cbn [fst snd] in *.
    destruct IH as (Hw2 & Hx2 & Hlen2 & Hslot2 & Hmsg2).
    repeat split; auto; lia.
Qed.

Lemma xhr_run_invariants_witness :
  wf_world (snd (xhr_run (get_x_calls 1%N) new_XHR
                   (initial_world false true)))
  /\ allocated
       (_requestDetails
          (snd (fst (xhr_run (get_x_calls 1%N) new_XHR
                       (initial_world false true)))))
       (snd (xhr_run (get_x_calls 1%N) new_XHR (initial_world false true)))
  /\ List.length (heap (initial_world false true))
     <= List.length
          (heap (snd (xhr_run (get_x_calls 1%N) new_XHR
                        (initial_world false true)))).
Proof.
  destruct (@xhr_run_invariants (get_x_calls 1%N) new_XHR
              (initial_world false true) I I) as (H1 & H2 & H3 & _).
  repeat split; assumption.
Defined.

(** ** What a call of the wrapped fetch does to the page *)

Lemma fetch_details_timestamp (args : list value) (now : Date)
  (r : RequestDetails) :
  fetch_details args now = Ok r -> timestamp r = now.
Proof.
  unfold fetch_details.
  destruct (call_toString (arg 0 args)); cbn [bind]; [|discriminate].
  intros [= <-]; reflexivity.
Qed.

(** X12: the effect of one call of the wrapped fetch.  When building the
    record raises, the page is left exactly as it was.  Otherwise the store
    gains this one record at its end and the slot of the display refers to
    it, replacing whatever it held, even when rendering then raises; when
    rendering returns, the container shows the text of the new record with
    the time of the call and the call is forwarded, and when it raises the
    container keeps what it showed.  A container that showed a message never
    goes back to the placeholder. *)
Theorem wrapped_fetch_effect (args : list value) (now : Date) (w : World) :
  let w' := snd (wrapped_fetch args now w) in
  match fetch_details args now with
  | Throw e => wrapped_fetch args now w = (Thrown e, w)
  | Ok r =>
      heap w' = heap w ++ [r]
      /\ lastRequest (display w') = Some (List.length (heap w))
      /\ current_request w' = Some r
      /\ match httpMessage r with
         | Ok text =>
             container (display w') = HttpMessage text (hljs w) now
             /\ fst (wrapped_fetch args now w)
                = Forwarded (originalFetch args)
         | Throw e =>
             container (display w') = container (display w)
             /\ fst (wrapped_fetch args now w) = Thrown e
         end
  end
  /\ in_document w' = in_document w
  /\ hljs w' = hljs w
  /\ (is_message (container (display w)) = true ->
      is_message (container (display w')) = true).
Proof.
  cbv zeta; unfold wrapped_fetch.
  destruct (fetch_details args now) as [r|e] eqn:Hd; [|repeat split; auto].
  apply fetch_details_timestamp in Hd.
  unfold alloc, render, current_request.
  cbn [set_lastRequest display lastRequest heap set_heap].
  rewrite nth_error_alloc.
  destruct (httpMessage r) as [text|e]; cbn [bind fst snd];
    cbn [set_container set_lastRequest display lastRequest heap set_heap
           container hljs in_document is_message];
    rewrite ?nth_error_alloc, ?Hd; repeat split; auto.
Qed.

Lemma capture_headers_NoDup (config : value) :
  NoDup (Props.keys (capture_headers config)).
Proof.
  unfold capture_headers.
  destruct (truthy (optional_member config m_headers)); [|constructor].
  destruct (optional_member config m_headers) as
    [ | |b|s|o|elems|es|u meth hs hb|es|repr];
    cbn [typeof_object]; try constructor;
    try (apply (PropsFacts.fold_define _ []); constructor).
  apply (PropsFacts.fold_set es []); constructor.
Qed.

(** X13: every record the wrapped fetch builds has a truthy method, a string
    as its URL (the [url] of a [Request], the resource's [toString()]
    otherwise), header names that are pairwise distinct, the body member of
    the options bag as it is, and the time of the call. *)
Theorem fetch_details_shape (args : list value) (now : Date)
  (r : RequestDetails) :
  fetch_details args now = Ok r ->
  truthy (method r) = true
  /\ (exists s, url r = Str s
                /\ match arg 0 args with
                   | Request u _ _ _ => s = u
                   | v => call_toString v = Ok s
                   end)
  /\ NoDup (Props.keys (headers r))
  /\ body r = optional_member (arg 1 args) m_body
  /\ timestamp r = now.
Proof.
  unfold fetch_details.
  destruct (call_toString (arg 0 args)) as [s|e] eqn:Hs; cbn [bind];
    [|discriminate].
  intros [= <-]; cbn [method url headers body timestamp]; repeat split.
  - destruct (truthy (optional_member (arg 1 args) m_method)) eqn:E;
      [exact E|reflexivity].
  - destruct (arg 0 args); eexists; split; try reflexivity; exact Hs.
  - apply capture_headers_NoDup.
Qed.

Lemma fetch_details_shape_witness :
  truthy (method {| method := Str (js "GET"); url := Str (js "/r");
                    headers := []; body := Undefined; timestamp := 2%N |})
  = true.
Proof.
  apply (@fetch_details_shape
           [Request (js "/r") (js "POST") [] false] 2%N
           {| method := Str (js "GET"); url := Str (js "/r");
              headers := []; body := Undefined; timestamp := 2%N |}).
  reflexivity.
Defined.

(** ** Headers captured from a [Headers] instance *)

Lemma Forall_overwrite (P : jstr * value -> Prop) (k : jstr) (v : value)
  (o : props) :
  (forall k', P (k', v)) -> Forall P o -> Forall P (Props.overwrite k v o).
Proof.
  intros Hv H; induction H as [|[k' v'] o Hkv Ho IH]; cbn [Props.overwrite];
    [constructor|].
  destruct (jstr_eqb k k'); constructor; auto.
Qed.

Lemma Forall_insert_index (P : jstr * value -> Prop) (n : N) (k : jstr)
  (v : value) (o : props) :
  P (k, v) -> Forall P o -> Forall P (Props.insert_index n k v o).
Proof.
  intros Hv H; induction H as [|[k' v'] o Hkv Ho IH];
    cbn [Props.insert_index]; [repeat constructor; exact Hv|].
  destruct (array_index k') as [m|]; [destruct (m <? n)%N|];
    repeat constructor; auto.
Qed.

Lemma Forall_set (P : jstr * value -> Prop) (k v : jstr) (o : props) :
  (forall k', P (k', Str v)) -> Forall P o -> Forall P (Props.set o k v).
Proof.
  intros Hv H; unfold Props.set, Props.define.
  destruct (jstr_eqb k (js "__proto__")); [exact H|].
  destruct (Props.lookup k o); [now apply Forall_overwrite|].
  destruct (array_index k); [now apply Forall_insert_index|].
  apply Forall_app; split; [exact H|repeat constructor; apply Hv].
Qed.

(** X14: the mapping captured from a [Headers] instance holds strings only,
    so the header loop of [render] cannot raise on it and writes a text that
    begins with the text it was given. *)
Theorem capture_headers_of_Headers_strings (config : value)
  (es : list (jstr * jstr)) (msg : jstr) :
  optional_member config m_headers = Headers es ->
  Forall (fun kv => exists s, snd kv = Str s) (capture_headers config)
  /\ exists rest,
       header_lines msg (capture_headers config) = Ok (msg ++ rest).
Proof.
  intros Hh.
  assert (H : Forall (fun kv : jstr * value => exists s, snd kv = Str s)
                (capture_headers config)).
  { unfold capture_headers; rewrite Hh; cbn [truthy].
    generalize (@nil (jstr * value))
               (@Forall_nil (jstr * value)
                  (fun kv => exists s, snd kv = Str s)).
    clear Hh; induction es as [|[k v] es IH]; intros o Ho; [exact Ho|].
    cbn [fold_left fst snd]; apply IH, Forall_set; [|exact Ho].
    intros k'; now exists v. }
  split; [exact H|].
  revert msg; induction H as [|[k v] hs [s Hs] _ IH]; intros msg.
  - exists []; cbn [header_lines]; now rewrite app_nil_r.
  - cbn [snd] in Hs; subst v; cbn [header_lines ToString bind].
    destruct (IH (msg ++ [c_nl] ++ k ++ js ": " ++ s)) as [rest ->].
    eexists; now rewrite <- app_assoc.
Qed.

Lemma capture_headers_of_Headers_strings_witness :
  Forall (fun kv => exists s, snd kv = Str s)
    (capture_headers
       (Object [(js "headers", Headers [(js "accept", js "text/html")])]))
  /\ exists rest,
       header_lines (js "GET / HTTP/1.1")
         (capture_headers
            (Object [(js "headers",
                      Headers [(js "accept", js "text/html")])]))
       = Ok (js "GET / HTTP/1.1" ++ rest).
Proof.
  apply (@capture_headers_of_Headers_strings
           (Object [(js "headers", Headers [(js "accept", js "text/html")])])
           [(js "accept", js "text/html")] (js "GET / HTTP/1.1")).
  reflexivity.
Defined.

(** ** One-line bodies *)

Lemma formatHtml_one_line (s : jstr) :
  has_nl s = false -> includes s (js "><") = false ->
  formatHtml s = trim s.
Proof.
  intros Hnl Hpair.
  destruct (FormatHtmlFacts.formatHtml_shape s) as (items & Hsnd & ->).
  unfold nonblank_lines in Hsnd.
  rewrite (@HtmlFacts.replace_gt_lt_same s Hpair) in Hsnd.
  rewrite (@StringFacts.split_nl_no_nl s Hnl) in Hsnd.
  cbn [map filter] in Hsnd.
  destruct (jstr_eqb (trim s) []) eqn:E; cbn [negb] in Hsnd.
  - apply jstr_eqb_eq in E; rewrite E.
    destruct items; [reflexivity|discriminate].
  - destruct items as [|[n t] [|it items]]; try discriminate.
    cbn [map snd] in Hsnd; injection Hsnd as ->; reflexivity.
Qed.

(** X15: a string body on one line that has no [>] right before a [<] is
    returned unchanged when it is not shaped like a tag, and only trimmed
    when it is: [formatBody] never changes anything but the white space at
    its ends. *)
Theorem formatBody_one_line (s : jstr) :
  s <> [] ->
  has_nl s = false ->
  includes s (js "><") = false ->
  formatBody (Str s)
  = Ok (Str (if startsWith (trim s) (js "<") && endsWith (trim s) (js ">")
             then trim s else s)).
Proof.
  intros Hne Hnl Hpair; unfold formatBody; cbn [truthy].
  apply jstr_eqb_neq in Hne; rewrite Hne; cbn [negb].
  destruct (startsWith (trim s) (js "<") && endsWith (trim s) (js ">"));
    [|reflexivity].
  now rewrite formatHtml_one_line.
Qed.

Lemma formatBody_one_line_witness :
  formatBody (Str (js "  <p>hi</p> ")) = Ok (Str (js "<p>hi</p>")).
Proof.
  apply (@formatBody_one_line (js "  <p>hi</p> ")).
  - discriminate.
  - reflexivity.
  - reflexivity.
Defined.
